(** * Ticket clustering: a shallow embedding of [clustering.py]

    The development follows [src/ml/ticket-clustering/src/clustering.py]:
    the text normaliser [preprocess_text], the stop-word set built by
    [_initialize_stop_words], the cluster-count selector
    [find_optimal_clusters] and the driver [cluster_tickets].

    Python values are represented as follows.
    - A [str] is a list of code points; the embedding covers code points
      below 256 (one [ascii] each).  [str.lower], [\w], [\s] and
      [str.split] are written out for that range.
    - NLTK and scikit-learn are not part of the repository: the English
      stop-word list, the WordNet lemmatiser, [TfidfVectorizer],
      [KMeans] and [silhouette_score] are fields of the records
      [Resources] and [Sklearn], and every statement is made for an
      arbitrary value of these records unless it says otherwise.
    - An exception is a value of [exn]; a computation that may raise and
      that calls scikit-learn runs in the monad [M], whose state records
      the [KMeans.fit] calls and the file written so far.
    - Every definition follows the source, but for [spec_better],
      [spec_best] and [spec_select_in_order], which follow the
      specification's rule of choice and are what the selector of the
      source is compared with. *)

From Stdlib Require Import String Ascii ZArith QArith Bool Arith Lia.
From Stdlib Require Import DecimalString.
From Stdlib Require Import List Sorted Permutation.
Import ListNotations.

Close Scope Q_scope.
Open Scope nat_scope.

(** ** Strings *)

Definition str := list ascii.

Definition str_of (s : string) : str := list_ascii_of_string s.

Definition code (c : ascii) : nat := nat_of_ascii c.

Definition in_range (lo hi : nat) (c : ascii) : bool :=
  (lo <=? code c) && (code c <=? hi).

Definition is_upper (c : ascii) : bool := in_range 65 90 c.
Definition is_lower (c : ascii) : bool := in_range 97 122 c.
Definition is_digit (c : ascii) : bool := in_range 48 57 c.

(** The class [[a-zA-Z]] of the first regular expression. *)
Definition is_ascii_letter (c : ascii) : bool := is_upper c || is_lower c.

Definition space : ascii := " "%char.
Definition plus : ascii := "+"%char.
Definition dot : ascii := "."%char.
Definition comma : ascii := ","%char.

(** Python's whitespace ([str.split()], [str.strip()] and [\s] on a
    [str] pattern) below code point 256: TAB, LF, VT, FF, CR, the
    separators 28 to 31, SPACE, NEL (133) and NBSP (160). *)
Definition is_space (c : ascii) : bool :=
  in_range 9 13 c || in_range 28 32 c || (code c =? 133) || (code c =? 160).

(** [\w] on a [str] pattern is [str.isalnum() or '_'].  Below 256 the
    alphanumeric code points are the ASCII letters and digits, the
    ordinal indicators 170 and 186, the superscripts 178, 179 and 185,
    the micro sign 181, the fractions 188 to 190 and the Latin-1 letters
    192 to 255 without the signs 215 and 247. *)
Definition is_word (c : ascii) : bool :=
  is_ascii_letter c || is_digit c || (code c =? 95)
  || (code c =? 170) || (code c =? 178) || (code c =? 179)
  || (code c =? 181) || (code c =? 185) || (code c =? 186)
  || in_range 188 190 c
  || in_range 192 214 c || in_range 216 246 c || in_range 248 255 c.

(** [str.lower] on one code point below 256: the ASCII capitals and the
    Latin-1 capitals 192 to 222 (without the sign 215) move up by 32. *)
Definition lower_char (c : ascii) : ascii :=
  if is_upper c || (in_range 192 222 c && negb (code c =? 215))
  then ascii_of_nat (code c + 32)
  else c.

Definition lower (s : str) : str := map lower_char s.

Fixpoint str_eqb (a b : str) : bool :=
  match a, b with
  | [], [] => true
  | x :: a', y :: b' => Ascii.eqb x y && str_eqb a' b'
  | _, _ => false
  end.

(** Membership in a Python [set] (or [list]) of strings. *)
Definition mem (w : str) (l : list str) : bool := existsb (str_eqb w) l.

Fixpoint starts_with (p s : str) : bool :=
  match p, s with
  | [], _ => true
  | x :: p', y :: s' => Ascii.eqb x y && starts_with p' s'
  | _ :: _, [] => false
  end.

(** [emit cur rest]: close the run [cur] that a scan has collected; an
    empty run produces no item. *)
Definition emit (cur : str) (rest : list str) : list str :=
  match cur with
  | [] => rest
  | _ :: _ => cur :: rest
  end.

(** The maximal runs of characters satisfying [p], left to right;
    [cur] is the run being collected. *)
Fixpoint runs_from (p : ascii -> bool) (cur : str) (s : str) : list str :=
  match s with
  | [] => emit cur []
  | c :: s' =>
      if p c then runs_from p (cur ++ [c]) s'
      else emit cur (runs_from p [] s')
  end.

Definition runs (p : ascii -> bool) (s : str) : list str := runs_from p [] s.

(** [text.split()]: the maximal runs of non-whitespace characters. *)
Definition split (s : str) : list str := runs (fun c => negb (is_space c)) s.

(** [sep.join(tokens)]. *)
Fixpoint join (sep : str) (tokens : list str) : str :=
  match tokens with
  | [] => []
  | [t] => t
  | t :: ts => t ++ sep ++ join sep ts
  end.

(** [text.replace(old, new)] for a one-character [old]. *)
Definition replace (old : ascii) (new : str) (s : str) : str :=
  flat_map (fun c => if Ascii.eqb c old then new else [c]) s.

Fixpoint lstrip (s : str) : str :=
  match s with
  | [] => []
  | c :: s' => if is_space c then lstrip s' else s
  end.

Definition rstrip (s : str) : str := rev (lstrip (rev s)).

(** [text.strip()]. *)
Definition strip (s : str) : str := rstrip (lstrip s).

(** ** The regular expressions of [preprocess_text]

    Each [re.sub] of the source is written as the scan it performs. *)

(** [re.sub(r"[^a-zA-Z+]", " ", text)]: every character outside the
    class becomes one space. *)
Definition sub_non_alpha (s : str) : str :=
  map (fun c => if is_ascii_letter c || Ascii.eqb c plus then c else space) s.

Definition kindly : str := str_of "kindly".
Definition hi : str := str_of "hi".
Definition hello : str := str_of "hello".

(** [re.sub('kindly|hi|hello', '', text)]: at each position, from the
    left, the alternatives are tried in the order written; a match is
    deleted and the scan resumes after it.  [skip] counts the characters
    of the current match still to be deleted. *)
Fixpoint sub_greeting_from (skip : nat) (s : str) : str :=
  match s with
  | [] => []
  | c :: s' =>
      match skip with
      | S n => sub_greeting_from n s'
      | O =>
          if starts_with kindly s then sub_greeting_from 5 s'
          else if starts_with hi s then sub_greeting_from 1 s'
          else if starts_with hello s then sub_greeting_from 4 s'
          else c :: sub_greeting_from 0 s'
      end
  end.

Definition sub_greeting (s : str) : str := sub_greeting_from 0 s.

(** What [\b\w{1,2}\b] does to a maximal run of word characters: a word
    boundary on both sides makes the match a whole run, so a run of one
    or two characters is deleted and a longer one is kept. *)
Definition keep_run (run : str) : str :=
  if length run <=? 2 then [] else run.

(** [re.sub(r'\b\w{1,2}\b', '', text)]; [run] is the run of word
    characters being read. *)
Fixpoint sub_short_from (run : str) (s : str) : str :=
  match s with
  | [] => keep_run run
  | c :: s' =>
      if is_word c then sub_short_from (run ++ [c]) s'
      else keep_run run ++ c :: sub_short_from [] s'
  end.

Definition sub_short (s : str) : str := sub_short_from [] s.

(** [re.sub(r'\s+', ' ', text)]: every maximal run of whitespace becomes
    one space; [in_ws] tells that the previous character was whitespace. *)
Fixpoint sub_spaces_from (in_ws : bool) (s : str) : str :=
  match s with
  | [] => []
  | c :: s' =>
      if is_space c
      then (if in_ws then sub_spaces_from true s'
            else space :: sub_spaces_from true s')
      else c :: sub_spaces_from false s'
  end.

Definition sub_spaces (s : str) : str := sub_spaces_from false s.

(** ** The stop-word set *)

Definition domain_stop_words : list str :=
  map str_of
    ["make"; "sent"; "still"; "kindly"; "please"; "dear"; "till"; "soon";
     "since"; "however"; "said"; "also"; "know"; "already"; "related";
     "take"; "made"; "thanks"; "regards"; "consider"; "need"; "required";
     "within"; "taken"; "hence"; "thank"; "much"; "would"; "many"; "user";
     "done"; "able"; "almost"; "want"; "regard"; "regarding"; "like";
     "therefore"; "another"; "give"; "hereby"; "given"; "thanking";
     "taking"; "srns"; "came"; "following"; "whether"; "mention"; "kind";
     "along"; "whereas"; "enable"; "shall"; "herewith"; "without";
     "accordingly"; "cannot"; "come"; "provided"; "instead"; "towards";
     "xbrl"; "making"; "whose"; "takes"; "thankyou"; "obtain"; "obtained";
     "asked"; "madam"; "team"; "needful"; "much"; "sir"]%string.

Definition operators : list str :=
  map str_of
    ["not"; "un"; "got"; "and"; "or"; "other"; "i"; "dont";
     "know"; "there"; "many"; "too"; "add"; "my"]%string.

(** [_initialize_stop_words]; [english] is [stopwords.words('english')].
    A Python set is represented by a list of its elements: [update] adds
    the elements of the second list and [-] keeps the elements that are
    not operators. *)
Definition _initialize_stop_words (english : list str) : list str :=
  let stop_words := english in
  let stop_words := stop_words ++ domain_stop_words in
  filter (fun w => negb (mem w operators)) stop_words.

(** ** The instance *)

(** What NLTK supplies to [__init__]. *)
Record Resources := {
  stopwords_english : list str;        (* stopwords.words('english') *)
  wordnet_lemmatize : str -> str;      (* WordNetLemmatizer().lemmatize *)
  porter_stem : str -> str             (* PorterStemmer().stem *)
}.

(** The attributes of a [TicketClustering] object. *)
Record TicketClustering := {
  base_dir : str;
  input_file : str;
  output_file : str;
  lemmatizer : str -> str;
  stemmer : str -> str;
  stop_words : list str
}.

(** [a or b] on an optional path: [None] and the empty string are false. *)
Definition or_default (a : option str) (b : str) : str :=
  match a with
  | Some (c :: p) => c :: p
  | _ => b
  end.

(** [Path / "relative"]. *)
Definition path_join (dir rel : str) : str := dir ++ str_of "/" ++ rel.

(** [__init__]; [here] is [Path(__file__).parent.parent].  The two
    [nltk.download] calls of lines 41 and 42 fetch the corpora that
    [Resources] stands for; what they write to the NLTK data directory
    is not represented. *)
Definition __init__ (nltk : Resources) (here : str)
    (input_file output_file : option str) : TicketClustering :=
  {| base_dir := here;
     input_file :=
       or_default input_file
         (path_join here (str_of "data/raw/unanswered_reports.csv"));
     output_file :=
       or_default output_file
         (path_join here (str_of "output/clustered_tickets.csv"));
     lemmatizer := wordnet_lemmatize nltk;
     stemmer := porter_stem nltk;
     stop_words := _initialize_stop_words (stopwords_english nltk) |}.

(** ** The normaliser *)

(** Lines 87 to 96: the tokens of the lowercased, cleaned text. *)
Definition tokenize (text : str) : list str :=
  let text := lower text in
  let text := sub_non_alpha text in
  let text := sub_greeting text in
  split text.

(** Lines 99 to 103: the comprehension's filter. *)
Definition kept_tokens (self : TicketClustering) (text : str) : list str :=
  filter (fun token => negb (mem token (stop_words self))) (tokenize text).

(** [preprocess_text]; [text] is [str(text)]. *)
Definition preprocess_text (self : TicketClustering) (text : str) : str :=
  let tokens := map (lemmatizer self) (kept_tokens self text) in
  let text := join [space] tokens in
  let text := replace comma [space] (replace dot [space] text) in
  let text := sub_short text in
  let text := sub_spaces text in
  strip text.

(** ** Exceptions and the world *)

Inductive exn :=
| FileNotFoundError (path : str)
| KeyError (key : str)
| IndexError
| TypeError
| ValueError (msg : string).

Definition result (A : Type) : Type := (exn + A)%type.

(** ** pandas: cells and frames *)

(** A cell read from a CSV file, or computed: text, an integer, or the
    missing value.  Cells of floating-point columns are not represented. *)
Inductive cell :=
| Str (s : str)
| Int (z : Z)
| NaN.

(** A frame: the column names and the rows, each row one cell per
    column.  The index is not represented: the source assigns arrays by
    position and writes with [index=False]. *)
Record DataFrame := {
  columns : list str;
  rows : list (list cell)
}.

(** [str(text)] on a cell. *)
Definition py_str (c : cell) : str :=
  match c with
  | Str s => s
  | Int z => str_of (NilZero.string_of_int (Z.to_int z))
  | NaN => str_of "nan"
  end.

Definition cell_eqb (a b : cell) : bool :=
  match a, b with
  | Str x, Str y => str_eqb x y
  | Int x, Int y => Z.eqb x y
  | _, _ => false
  end.

(** The position of a column name. *)
Fixpoint index_of (name : str) (names : list str) : option nat :=
  match names with
  | [] => None
  | n :: names' =>
      if str_eqb name n then Some 0
      else option_map S (index_of name names')
  end.

(** [df[name]]: the cells of one column. *)
Definition getitem (df : DataFrame) (name : str) : result (list cell) :=
  match index_of name (columns df) with
  | None => inl (KeyError name)
  | Some i => inr (map (fun r => nth i r NaN) (rows df))
  end.

Fixpoint positions (names all : list str) : result (list nat) :=
  match names with
  | [] => inr []
  | n :: names' =>
      match index_of n all with
      | None => inl (KeyError n)
      | Some i =>
          match positions names' all with
          | inl e => inl e
          | inr ps => inr (i :: ps)
          end
      end
  end.

(** [df[[name1, name2, ...]]]: a new frame with these columns. *)
Definition getitem_list (df : DataFrame) (names : list str) : result DataFrame :=
  match positions names (columns df) with
  | inl e => inl e
  | inr ps =>
      inr {| columns := names;
             rows := map (fun r => map (fun i => nth i r NaN) ps) (rows df) |}
  end.

(** Replace the cell at position [i] of a row. *)
Fixpoint set_nth (i : nat) (v : cell) (r : list cell) : list cell :=
  match r, i with
  | [], _ => []
  | _ :: r', O => v :: r'
  | c :: r', S j => c :: set_nth j v r'
  end.

(** [df[name] = values] for an array of values: pandas requires one
    value per row and raises [ValueError] otherwise; the values are put
    by position, in a new last column or over the column of that name. *)
Definition setitem (df : DataFrame) (name : str) (values : list cell)
    : result DataFrame :=
  if length values =? length (rows df) then
    match index_of name (columns df) with
    | Some i =>
        inr {| columns := columns df;
               rows := map (fun rv => set_nth i (snd rv) (fst rv))
                         (combine (rows df) values) |}
    | None =>
        inr {| columns := columns df ++ [name];
               rows := map (fun rv => fst rv ++ [snd rv])
                         (combine (rows df) values) |}
    end
  else inl (ValueError "Length of values does not match length of index").

(** [df[mask]] for a boolean mask, one flag per row. *)
Definition getitem_mask (df : DataFrame) (mask : list bool) : DataFrame :=
  {| columns := columns df;
     rows := map fst (filter snd (combine (rows df) mask)) |}.

(** The order [sort_values] puts cells in: integers by value, text by
    code points, the missing value last. *)
Fixpoint str_leb (a b : str) : bool :=
  match a, b with
  | [], _ => true
  | _ :: _, [] => false
  | x :: a', y :: b' =>
      if code x <? code y then true
      else if code y <? code x then false
      else str_leb a' b'
  end.

Definition cell_leb (a b : cell) : bool :=
  match a, b with
  | _, NaN => true
  | NaN, _ => false
  | Int x, Int y => Z.leb x y
  | Str x, Str y => str_leb x y
  | Int _, Str _ => true
  | Str _, Int _ => false
  end.

Definition is_Int (c : cell) : bool :=
  match c with Str _ => false | _ => true end.

Definition is_Str (c : cell) : bool :=
  match c with Int _ => false | _ => true end.

Section Sorting.
Context {A : Type} (key : A -> cell).

Fixpoint insert_by (x : A) (l : list A) : list A :=
  match l with
  | [] => [x]
  | y :: l' =>
      if cell_leb (key x) (key y) then x :: l
      else y :: insert_by x l'
  end.

Fixpoint sort_by (l : list A) : list A :=
  match l with
  | [] => []
  | x :: l' => insert_by x (sort_by l')
  end.
End Sorting.

(** [df.sort_values(name)]: the rows in ascending order of one column.
    A column that mixes text and integers cannot be compared
    ([TypeError]).  pandas does not promise an order among rows with
    equal keys; here they keep their relative order, and no statement
    below depends on it. *)
Definition sort_values (df : DataFrame) (name : str) : result DataFrame :=
  match index_of name (columns df) with
  | None => inl (KeyError name)
  | Some i =>
      let keys := map (fun r => nth i r NaN) (rows df) in
      if forallb is_Int keys || forallb is_Str keys then
        inr {| columns := columns df;
               rows := sort_by (fun r => nth i r NaN) (rows df) |}
      else inl TypeError
  end.

(** ** scikit-learn *)

Definition matrix := list (list Q).

Inductive init_method := k_means_pp | random.

(** The constructor arguments of [KMeans] that the source sets. *)
Record KMeans := {
  n_clusters : Z;
  init : init_method;
  max_iter : Z;
  n_init : Z;
  random_state : Z
}.

(** A fitted model. *)
Record Fitted := {
  labels_ : list Z;
  cluster_centers_ : matrix
}.

(** The constructor arguments of [TfidfVectorizer] that the source sets. *)
Record TfidfVectorizer := {
  tfidf_stop_words : str;
  min_df : Z
}.

(** What scikit-learn supplies.  Each function may raise.  A cohesion
    score is a binary floating-point number in the source; the
    embedding takes it as the rational it denotes, which keeps the
    order that [np.argmax] compares by. *)
Record Sklearn := {
  fit_transform : TfidfVectorizer -> list str -> result matrix;
  kmeans_fit : KMeans -> matrix -> result Fitted;
  silhouette_score : matrix -> list Z -> result Q
}.

(** One call of [KMeans.fit]: the estimator, the data and the outcome. *)
Record fit_record := {
  estimator : KMeans;
  data : matrix;
  outcome : result Fitted
}.

(** The world a run acts on: the CSV files by path (newest first) and
    the [KMeans.fit] calls made so far (oldest first). *)
Record world := {
  files : list (str * DataFrame);
  fits : list fit_record
}.

(** ** The monad of runs *)

Definition M (A : Type) : Type := world -> world * result A.

Definition ret {A : Type} (a : A) : M A := fun w => (w, inr a).

Definition raise {A : Type} (e : exn) : M A := fun w => (w, inl e).

Definition bind {A B : Type} (m : M A) (f : A -> M B) : M B :=
  fun w =>
    match m w with
    | (w', inl e) => (w', inl e)
    | (w', inr a) => f a w'
    end.

Definition lift {A : Type} (r : result A) : M A := fun w => (w, r).

Notation "x <- m ;; k" := (bind m (fun x => k))
  (at level 61, m at next level, right associativity).
Notation "m ;;; k" := (bind m (fun _ => k))
  (at level 61, right associativity).

(** [pd.read_csv(path)]. *)
Fixpoint lookup_file (path : str) (fs : list (str * DataFrame)) : option DataFrame :=
  match fs with
  | [] => None
  | (p, df) :: fs' => if str_eqb path p then Some df else lookup_file path fs'
  end.

Definition read_csv (path : str) : M DataFrame :=
  fun w =>
    match lookup_file path (files w) with
    | Some df => (w, inr df)
    | None => (w, inl (FileNotFoundError path))
    end.

(** [df.to_csv(path, index=False)].  An error of the operating system
    during the write (a missing directory, a full disk) is not
    represented: what is stated below about the written file concerns
    the runs that return. *)
Definition to_csv (df : DataFrame) (path : str) : M unit :=
  fun w => ({| files := (path, df) :: files w; fits := fits w |}, inr tt).

(** [kmeans.fit(X)]: the call is recorded, then its outcome returned. *)
Definition fit (sk : Sklearn) (kmeans : KMeans) (X : matrix) : M Fitted :=
  fun w =>
    let r := kmeans_fit sk kmeans X in
    ({| files := files w;
        fits := fits w ++ [{| estimator := kmeans; data := X; outcome := r |}] |},
     r).

(** ** The cluster-count selector *)

(** [range(lo, hi)]. *)
Definition py_range (lo hi : Z) : list Z :=
  map (fun i => (lo + Z.of_nat i)%Z) (seq 0 (Z.to_nat (hi - lo))).

(** [K[i]] for a position [i] that [np.argmax] returned. *)
Definition getitem_range (K : list Z) (i : nat) : result Z :=
  match nth_error K i with
  | Some k => inr k
  | None => inl IndexError
  end.

Definition Qltb (a b : Q) : bool := negb (Qle_bool b a).

(** The scan of [np.argmax]: [best] is the greatest value seen, at
    position [best_i]; a later value replaces it only when it is
    strictly greater. *)
Fixpoint argmax_from (best_i : nat) (best : Q) (i : nat) (l : list Q) : nat :=
  match l with
  | [] => best_i
  | x :: l' =>
      if Qltb best x then argmax_from i x (S i) l'
      else argmax_from best_i best (S i) l'
  end.

(** [np.argmax(scores)]; numpy raises [ValueError] on an empty sequence. *)
Definition argmax (scores : list Q) : result nat :=
  match scores with
  | [] => inl (ValueError "attempt to get argmax of an empty sequence")
  | x :: l => inr (argmax_from 0 x 1 l)
  end.

(** Lines 134 to 143: the body of the loop for one candidate [k]. *)
Definition score_candidate (sk : Sklearn) (X : matrix) (k : Z) : M Q :=
  let kmeans :=
    {| n_clusters := k;
       init := k_means_pp;
       max_iter := 300;
       n_init := 10;
       random_state := 42 |} in
  model <- fit sk kmeans X ;;
  lift (silhouette_score sk X (labels_ model)).

(** Lines 133 to 144: [for k in K], appending to [silhouette_scores]. *)
Fixpoint for_each_k (sk : Sklearn) (X : matrix) (K : list Z)
    (silhouette_scores : list Q) : M (list Q) :=
  match K with
  | [] => ret silhouette_scores
  | k :: K' =>
      score <- score_candidate sk X k ;;
      for_each_k sk X K' (silhouette_scores ++ [score])
  end.

(** Lines 129 to 146 for a sequence [K] of candidates: score each, in
    the order of [K], and return [K[np.argmax(silhouette_scores)]]. *)
Definition select_among (sk : Sklearn) (X : matrix) (K : list Z) : M Z :=
  silhouette_scores <- for_each_k sk X K [] ;;
  i <- lift (argmax silhouette_scores) ;;
  lift (getitem_range K i).

(** The bound of line 128; [len(X.toarray())] is the number of rows and
    [//] is floor division. *)
Definition effective_max (X : matrix) (max_clusters : Z) : Z :=
  Z.min max_clusters (Z.of_nat (length X) / 8).

(** [find_optimal_clusters(X, max_clusters)]; the method does not read
    [self]. *)
Definition find_optimal_clusters (sk : Sklearn) (X : matrix)
    (max_clusters : Z) : M Z :=
  let max_clusters := effective_max X max_clusters in
  let K := py_range 2 (max_clusters + 1) in
  select_among sk X K.

(** ** The driver *)

Definition Inquiry_id : str := str_of "Inquiry_id".
Definition Question : str := str_of "Question".
Definition Description_clean : str := str_of "Description_clean".
Definition Label : str := str_of "Label".

(** [_analyze_clusters] only prints (sizes, percentages, top terms and
    sample questions); the console is not part of the world. *)
Definition _analyze_clusters (model : Fitted) (data : DataFrame) : M unit :=
  ret tt.

(** [cluster_tickets]. *)
Definition cluster_tickets (sk : Sklearn) (self : TicketClustering) : M unit :=
  df <- read_csv (input_file self) ;;
  df <- lift (getitem_list df [Inquiry_id; Question]) ;;
  question <- lift (getitem df Question) ;;
  df <- lift (setitem df Description_clean
                (map (fun text => Str (preprocess_text self (py_str text)))
                   question)) ;;
  description_clean <- lift (getitem df Description_clean) ;;
  let clean_data :=
    getitem_mask df
      (map (fun c => negb (cell_eqb c (Str []))) description_clean) in
  let vectorizer :=
    {| tfidf_stop_words := str_of "english"; min_df := 2 |} in
  documents <- lift (getitem clean_data Description_clean) ;;
  X <- lift (fit_transform sk vectorizer (map py_str documents)) ;;
  optimal_k <- find_optimal_clusters sk X 10 ;;
  let model :=
    {| n_clusters := optimal_k;
       init := k_means_pp;
       max_iter := 300;
       n_init := 10;
       random_state := 42 |} in
  model <- fit sk model X ;;
  clean_data <- lift (setitem clean_data Label (map Int (labels_ model))) ;;
  _analyze_clusters model clean_data ;;;
  df <- lift (setitem df Label (map Int (labels_ model))) ;;
  sorted <- lift (sort_values df Label) ;;
  to_csv sorted (output_file self).

(** ** Notions used in the statements *)

(** A character of a token: a lowercase letter or [+]. *)
Definition plain (c : ascii) : bool := is_lower c || Ascii.eqb c plus.

(** [delimited t s]: [t] occurs in [s] with the start of [s] or a space
    before it and the end of [s] or a space after it. *)
Definition left_ok (a : str) : Prop := a = [] \/ exists a', a = a' ++ [space].
Definition right_ok (b : str) : Prop := b = [] \/ exists b', b = space :: b'.
Definition delimited (t s : str) : Prop :=
  exists a b, s = a ++ t ++ b /\ left_ok a /\ right_ok b.

(** ASCII punctuation ([string.punctuation]). *)
Definition is_punct (c : ascii) : bool :=
  in_range 33 47 c || in_range 58 64 c || in_range 91 96 c || in_range 123 126 c.

(** The lemmatiser returns lowercase letters and [+] for a token made
    of them. *)
Definition lemmatizer_plain (self : TicketClustering) : Prop :=
  forall t, Forall (fun c => plain c = true) t ->
            Forall (fun c => plain c = true) (lemmatizer self t).

(** The estimator that the loop of [find_optimal_clusters] builds for
    the candidate [k], and the record of its fit. *)
Definition candidate (k : Z) : KMeans :=
  {| n_clusters := k; init := k_means_pp; max_iter := 300; n_init := 10;
     random_state := 42 |}.

Definition candidate_fit (sk : Sklearn) (X : matrix) (k : Z) : fit_record :=
  {| estimator := candidate k; data := X;
     outcome := kmeans_fit sk (candidate k) X |}.

(** The score of the candidate [k], or the exception that its fit or
    its scoring raises. *)
Definition score_of (sk : Sklearn) (X : matrix) (k : Z) : result Q :=
  match kmeans_fit sk (candidate k) X with
  | inl e => inl e
  | inr model => silhouette_score sk X (labels_ model)
  end.

(** The scores of the candidates of [K], or the first exception. *)
Fixpoint scores_of (sk : Sklearn) (X : matrix) (K : list Z) : result (list Q) :=
  match K with
  | [] => inr []
  | k :: K' =>
      match score_of sk X k with
      | inl e => inl e
      | inr s =>
          match scores_of sk X K' with
          | inl e => inl e
          | inr l => inr (s :: l)
          end
      end
  end.

(** The candidates that get fitted: those up to the first exception. *)
Fixpoint evaluated (sk : Sklearn) (X : matrix) (K : list Z) : list Z :=
  match K with
  | [] => []
  | k :: K' =>
      k :: match score_of sk X k with
           | inl _ => []
           | inr _ => evaluated sk X K'
           end
  end.

Definition add_fits (w : world) (new : list fit_record) : world :=
  {| files := files w; fits := fits w ++ new |}.

(** [first_max l i v]: [v] is at position [i] of [l], no value of [l]
    is greater and every value before position [i] is smaller. *)
Definition first_max (l : list Q) (i : nat) (v : Q) : Prop :=
  nth_error l i = Some v /\
  (forall j x, nth_error l j = Some x -> (x <= v)%Q) /\
  (forall j x, j < i -> nth_error l j = Some x -> (x < v)%Q).

(** The normalised text of a cell, as a cell (line 161). *)
Definition clean_cell (self : TicketClustering) (text : cell) : cell :=
  Str (preprocess_text self (py_str text)).

(** The rows of the frame after line 161, when the identifier is
    column [i] and the question column [q] of the file. *)
Definition prepared_rows (self : TicketClustering) (i q : nat)
    (df : DataFrame) : list (list cell) :=
  map (fun r => [nth i r NaN; nth q r NaN; clean_cell self (nth q r NaN)])
    (rows df).

(** The questions of a file, and their normalised texts. *)
Definition questions (df : DataFrame) : list cell :=
  match getitem df Question with
  | inr l => l
  | inl _ => []
  end.

Definition cleaned (self : TicketClustering) (df : DataFrame) : list str :=
  map (fun text => preprocess_text self (py_str text)) (questions df).

(** The integer of a label cell. *)
Definition label_of (r : list cell) : Z :=
  match nth 3 r NaN with
  | Int z => z
  | _ => 0%Z
  end.

(** The rows that line 191 builds from the prepared rows and the labels. *)
Definition labelled_rows (self : TicketClustering) (i q : nat)
    (df : DataFrame) (labels : list Z) : list (list cell) :=
  map (fun rl => fst rl ++ [Int (snd rl)])
    (combine (prepared_rows self i q df) labels).

(** A token of three or more lowercase letters. *)
Definition wordy (t : str) : Prop :=
  3 <= length t /\ Forall (fun c => is_lower c = true) t.

(** ** The report

    [_analyze_clusters] prints, for each cluster [i] in
    [range(model.n_clusters)], its size, its percentage, its top terms
    and up to three questions.  The size and the questions are values
    of the frame and the labels alone and are written out here; the
    percentage is a floating-point quotient and the top terms come from
    [argsort] on the centres, and neither is represented. *)

(** Line 209: [sum(model.labels_ == i)]. *)
Definition cluster_size (labels : list Z) (i : Z) : nat :=
  length (filter (Z.eqb i) labels).

(** Lines 216 and 217: [data[data['Label'] == i]['Question'].head(3)]. *)
Definition sample_questions (data : DataFrame) (i : Z) : result (list cell) :=
  match getitem data Label with
  | inl e => inl e
  | inr label =>
      let cluster_data :=
        getitem_mask data (map (fun c => cell_eqb c (Int i)) label) in
      match getitem cluster_data Question with
      | inl e => inl e
      | inr question => inr (firstn 3 question)
      end
  end.

(** [occurs g s]: the string [g] occurs in [s]. *)
Definition occurs (g s : str) : Prop := exists a b, s = a ++ g ++ b.

(** Lines 109 and 110 on a piece of text: what the punctuation step and
    the short-word step make of it. *)
Definition tidy (s : str) : str :=
  sub_short (replace comma [space] (replace dot [space] s)).

(** ** The choice in the words of the specification

    The specification has the selector record a pair (k, score) for
    each candidate and return "the k with the maximum score; ties
    broken by preferring the smaller k".  [spec_better], [spec_best]
    and [spec_select_in_order] follow these words and not the source:
    they say what the choice is when the candidates are evaluated in an
    order other than the ascending one of line 130, and
    [find_optimal_clusters] is compared with them. *)





(** ** Sample resources

    Concrete values of the library records, for running the embedding
    on examples. *)

(** The English stop-word list distributed with NLTK (179 entries). *)
Definition nltk_english : list str :=
  map str_of
    ["i"; "me"; "my"; "myself"; "we"; "our"; "ours"; "ourselves"; "you";
     "you're"; "you've"; "you'll"; "you'd"; "your"; "yours"; "yourself";
     "yourselves"; "he"; "him"; "his"; "himself"; "she"; "she's"; "her";
     "hers"; "herself"; "it"; "it's"; "its"; "itself"; "they"; "them";
     "their"; "theirs"; "themselves"; "what"; "which"; "who"; "whom";
     "this"; "that"; "that'll"; "these"; "those"; "am"; "is"; "are"; "was";
     "were"; "be"; "been"; "being"; "have"; "has"; "had"; "having"; "do";
     "does"; "did"; "doing"; "a"; "an"; "the"; "and"; "but"; "if"; "or";
     "because"; "as"; "until"; "while"; "of"; "at"; "by"; "for"; "with";
     "about"; "against"; "between"; "into"; "through"; "during"; "before";
     "after"; "above"; "below"; "to"; "from"; "up"; "down"; "in"; "out";
     "on"; "off"; "over"; "under"; "again"; "further"; "then"; "once";
     "here"; "there"; "when"; "where"; "why"; "how"; "all"; "any"; "both";
     "each"; "few"; "more"; "most"; "other"; "some"; "such"; "no"; "nor";
     "not"; "only"; "own"; "same"; "so"; "than"; "too"; "very"; "s"; "t";
     "can"; "will"; "just"; "don"; "don't"; "should"; "should've"; "now";
     "d"; "ll"; "m"; "o"; "re"; "ve"; "y"; "ain"; "aren"; "aren't";
     "couldn"; "couldn't"; "didn"; "didn't"; "doesn"; "doesn't"; "hadn";
     "hadn't"; "hasn"; "hasn't"; "haven"; "haven't"; "isn"; "isn't"; "ma";
     "mightn"; "mightn't"; "mustn"; "mustn't"; "needn"; "needn't"; "shan";
     "shan't"; "shouldn"; "shouldn't"; "wasn"; "wasn't"; "weren";
     "weren't"; "won"; "won't"; "wouldn"; "wouldn't"]%string.

(** A lemmatiser that knows three plurals and returns any other word as
    it is, as the WordNet lemmatiser does for a word it has no base
    form for. *)
Definition sample_lemmatize (w : str) : str :=
  if str_eqb w (str_of "users") then str_of "user"
  else if str_eqb w (str_of "tickets") then str_of "ticket"
  else if str_eqb w (str_of "passwords") then str_of "password"
  else w.

Definition sample_nltk : Resources :=
  {| stopwords_english := nltk_english;
     wordnet_lemmatize := sample_lemmatize;
     porter_stem := fun w => w |}.

Definition sample_self : TicketClustering :=
  __init__ sample_nltk (str_of ".") None None.

(** A second object: other paths, another stemmer, and the stop words
    listed in the opposite order. *)
Definition sample_self_again : TicketClustering :=
  {| base_dir := str_of "/srv";
     input_file := str_of "/srv/in.csv";
     output_file := str_of "/srv/out.csv";
     lemmatizer := sample_lemmatize;
     stemmer := fun w => w ++ str_of "s";
     stop_words := rev (stop_words sample_self) |}.

(** A stand-in for scikit-learn: one feature per document (its length),
    an error on an empty corpus, labels dealt round-robin, and a score
    that grows with the greatest label. *)
Definition toy_sklearn : Sklearn :=
  {| fit_transform := fun _ docs =>
       match docs with
       | [] => inl (ValueError "empty vocabulary")
       | _ => inr (map (fun d => [inject_Z (Z.of_nat (length d))]) docs)
       end;
     kmeans_fit := fun kmeans X =>
       inr {| labels_ :=
                map (fun i => (Z.of_nat i mod n_clusters kmeans)%Z)
                  (seq 0 (length X));
              cluster_centers_ := [] |};
     silhouette_score := fun _ labels =>
       inr (Qmake (fold_right Z.max 0%Z labels) 10) |}.


(** A feature matrix of [R] rows. *)
Definition sample_matrix (R : nat) : matrix := repeat [inject_Z 1] R.

Definition ticket (id : Z) (question : string) : list cell :=
  [Int id; Str (str_of question); Str (str_of "open")].

(** Sixteen tickets on two topics. *)
Definition tickets16 : DataFrame :=
  {| columns := [Inquiry_id; Question; str_of "Status"];
     rows :=
       flat_map
         (fun i => [ticket (2 * i) "Please reset my password";
                    ticket (2 * i + 1) "Invoice payment failed"])
         (map Z.of_nat (seq 0 8)) |}.

(** The same with a seventeenth ticket made of digits only. *)
Definition tickets17 : DataFrame :=
  {| columns := columns tickets16;
     rows := rows tickets16 ++ [ticket 16 "12345"] |}.

(** Three tickets made of stop words, digits and punctuation. *)
Definition tickets_blank : DataFrame :=
  {| columns := columns tickets16;
     rows := [ticket 0 "Please, thanks!"; ticket 1 "42"; ticket 2 "..."] |}.

Definition world_with (df : DataFrame) : world :=
  {| files := [(input_file sample_self, df)]; fits := [] |}.

(** A stand-in whose scoring raises when there are four clusters or
    more, as [silhouette_score] does when the labels do not fit the
    number of samples. *)
Definition picky_sklearn : Sklearn :=
  {| fit_transform := fit_transform toy_sklearn;
     kmeans_fit := kmeans_fit toy_sklearn;
     silhouette_score := fun X labels =>
       if (fold_right Z.max 0%Z labels <? 3)%Z
       then silhouette_score toy_sklearn X labels
       else inl (ValueError "Number of labels is 1") |}.

(** A file without a [Question] column. *)
Definition prices : DataFrame :=
  {| columns := [Inquiry_id; str_of "price"];
     rows := [[Int 1; Str (str_of "$1,200.50")]; [Int 2; Str (str_of "n/a")]] |}.

(** The three tickets of the end-to-end example. *)
Definition three_tickets : DataFrame :=
  {| columns := [Inquiry_id; Question];
     rows := [[Int 1; Str (str_of "Please reset my password kindly")];
              [Int 2; Str (str_of "I cannot login to the portal")];
              [Int 3; Str (str_of "Need password reset urgently")]] |}.

(** The sixteen tickets with their normalised texts and labels, as
    line 185 leaves the frame. *)
Definition labelled16 : DataFrame :=
  {| columns := [Inquiry_id; Question; Description_clean; Label];
     rows := labelled_rows sample_self 0 1 tickets16
               (map (fun n => Z.of_nat n mod 2)%Z (seq 0 16)) |}.

(** * Facts *)

(** ** Characters *)

Ltac ascii_cases c :=
  destruct c as [[] [] [] [] [] [] [] []]; vm_compute; auto; try discriminate.

Lemma space_is_space : is_space space = true.
Proof. reflexivity. Qed.

Lemma is_space_not_word (c : ascii) : is_space c = true -> is_word c = false.
Proof. ascii_cases c. Qed.

Lemma plain_not_space (c : ascii) : plain c = true -> is_space c = false.
Proof. ascii_cases c. Qed.

Lemma is_lower_is_word (c : ascii) : is_lower c = true -> is_word c = true.
Proof. ascii_cases c. Qed.

Lemma plain_not_digit (c : ascii) : plain c = true -> is_digit c = false.
Proof. ascii_cases c. Qed.

(** Lowercasing, then line 90, leaves a lowercase letter, [+] or a space. *)
Lemma lower_then_sub_non_alpha (c : ascii) :
  let d := lower_char c in
  let e := if is_ascii_letter d || Ascii.eqb d plus then d else space in
  plain e = true \/ e = space.
Proof. ascii_cases c. Qed.

Lemma str_eqb_eq (a b : str) : str_eqb a b = true <-> a = b.
Proof.
  revert b; induction a as [|x a IH]; intros [|y b]; simpl;
    try (split; [discriminate | congruence]); try tauto.
  rewrite andb_true_iff, Ascii.eqb_eq, IH.
  split; [intros [-> ->]; reflexivity | intros H; inversion H; auto].
Qed.

Lemma mem_In (w : str) (l : list str) : mem w l = true <-> In w l.
Proof.
  unfold mem; rewrite existsb_exists; split.
  - intros [x [Hx Heq]]. apply str_eqb_eq in Heq. subst; assumption.
  - intros H. exists w. split; [assumption | apply str_eqb_eq; reflexivity].
Qed.

Lemma mem_false (w : str) (l : list str) : mem w l = false <-> ~ In w l.
Proof.
  rewrite <- mem_In. destruct (mem w l); split; congruence.
Qed.

(** ** Runs *)

Section Runs.
Variable p : ascii -> bool.

Lemma emit_app (cur : str) (l1 l2 : list str) :
  emit cur l1 ++ l2 = emit cur (l1 ++ l2).
Proof. destruct cur; reflexivity. Qed.

(** A separator closes the current run. *)
Lemma runs_from_sep (a : str) : forall (cur : str) (d : ascii) (s : str),
  p d = false ->
  runs_from p cur (a ++ d :: s) = runs_from p cur a ++ runs_from p [] s.
Proof.
  induction a as [|c a IH]; intros cur d s Hd; simpl.
  - rewrite Hd. destruct cur; reflexivity.
  - destruct (p c).
    + apply IH; assumption.
    + rewrite (IH [] d s Hd). apply eq_sym, emit_app.
Qed.

Lemma runs_from_all (t : str) : forall cur : str,
  Forall (fun c => p c = true) t ->
  runs_from p cur t = emit (cur ++ t) [].
Proof.
  induction t as [|c t IH]; intros cur H; simpl.
  - rewrite app_nil_r; reflexivity.
  - inversion H as [|? ? Hc Ht]; subst. rewrite Hc, IH by assumption.
    rewrite <- app_assoc; reflexivity.
Qed.

Lemma runs_from_none (t : str) : forall cur : str,
  Forall (fun c => p c = false) t ->
  runs_from p cur t = emit cur [].
Proof.
  induction t as [|c t IH]; intros cur H; simpl.
  - reflexivity.
  - inversion H as [|? ? Hc Ht]; subst. rewrite Hc, IH by assumption.
    reflexivity.
Qed.

(** Trailing separators add no run. *)
Lemma runs_from_app_none (a t : str) : forall cur : str,
  Forall (fun c => p c = false) t ->
  runs_from p cur (a ++ t) = runs_from p cur a.
Proof.
  induction a as [|c a IH]; intros cur H; simpl.
  - apply runs_from_none; assumption.
  - destruct (p c); rewrite IH by assumption; reflexivity.
Qed.

(** The characters of a run are characters of the text (or of the
    run being collected), and satisfy [p]. *)
Lemma runs_from_chars (s : str) : forall (cur t : str) (c : ascii),
  In t (runs_from p cur s) -> In c t ->
  In c cur \/ (In c s /\ p c = true).
Proof.
  induction s as [|d s IH]; intros cur t c Ht Hc; simpl in Ht.
  - destruct cur; simpl in Ht; [contradiction|].
    destruct Ht as [<-|[]]. left; assumption.
  - destruct (p d) eqn:Hd.
    + destruct (IH _ _ _ Ht Hc) as [H|[H Hp]].
      * apply in_app_or in H. destruct H as [H|[<-|[]]]; [left; assumption|].
        right; split; [left; reflexivity | assumption].
      * right; split; [right|]; assumption.
    + destruct cur as [|x cur]; simpl in Ht.
      * destruct (IH _ _ _ Ht Hc) as [[]|[H Hp]].
        right; split; [right|]; assumption.
      * destruct Ht as [<-|Ht]; [left; assumption|].
        destruct (IH _ _ _ Ht Hc) as [[]|[H Hp]].
        right; split; [right|]; assumption.
Qed.

(** The scans that only touch whitespace keep the runs of [p] when
    whitespace separates them. *)
Hypothesis p_space : forall c, is_space c = true -> p c = false.

Lemma runs_from_sub_spaces (s : str) : forall (b : bool) (cur : str),
  (b = true -> cur = []) ->
  runs_from p cur (sub_spaces_from b s) = runs_from p cur s.
Proof.
  induction s as [|c s IH]; intros b cur Hb; simpl.
  - reflexivity.
  - destruct (is_space c) eqn:Hc.
    + rewrite (p_space c Hc). destruct b.
      * rewrite (Hb eq_refl). simpl. apply IH; reflexivity.
      * simpl. rewrite (p_space space space_is_space).
        rewrite IH by reflexivity. reflexivity.
    + simpl. destruct (p c); rewrite IH; try reflexivity; discriminate.
Qed.

Lemma lstrip_split (s : str) :
  exists pre, s = pre ++ lstrip s /\ Forall (fun c => is_space c = true) pre.
Proof.
  induction s as [|c s [pre [Heq Hpre]]]; simpl.
  - exists []; split; [reflexivity | constructor].
  - destruct (is_space c) eqn:Hc.
    + exists (c :: pre); split; [simpl; congruence | constructor; assumption].
    + exists []; split; [reflexivity | constructor].
Qed.

Lemma rstrip_split (s : str) :
  exists post, s = rstrip s ++ post /\ Forall (fun c => is_space c = true) post.
Proof.
  unfold rstrip. destruct (lstrip_split (rev s)) as [pre [Heq Hpre]].
  exists (rev pre); split.
  - rewrite <- rev_app_distr, <- Heq, rev_involutive; reflexivity.
  - apply Forall_rev; assumption.
Qed.

Lemma runs_lstrip (s : str) : runs p (lstrip s) = runs p s.
Proof.
  unfold runs. induction s as [|c s IH]; simpl; [reflexivity|].
  destruct (is_space c) eqn:Hc.
  - rewrite (p_space c Hc). simpl. assumption.
  - reflexivity.
Qed.

Lemma runs_rstrip (s : str) : runs p (rstrip s) = runs p s.
Proof.
  destruct (rstrip_split s) as [post [Heq Hpost]].
  unfold runs. rewrite Heq at 2. symmetry. apply runs_from_app_none.
  eapply Forall_impl; [|exact Hpost]. exact p_space.
Qed.

Lemma runs_strip (s : str) : runs p (strip s) = runs p s.
Proof. unfold strip. rewrite runs_rstrip. apply runs_lstrip. Qed.

Lemma runs_sub_spaces (s : str) : runs p (sub_spaces s) = runs p s.
Proof. apply runs_from_sub_spaces. discriminate. Qed.
End Runs.

(** ** Where the characters of a result come from *)

Lemma sub_greeting_from_In (s : str) : forall (n : nat) (c : ascii),
  In c (sub_greeting_from n s) -> In c s.
Proof.
  induction s as [|d s IH]; intros n c H; [exact H|].
  cbn [sub_greeting_from] in H. destruct n as [|n].
  - destruct (starts_with kindly (d :: s)); [right; eapply IH; eassumption|].
    destruct (starts_with hi (d :: s)); [right; eapply IH; eassumption|].
    destruct (starts_with hello (d :: s)); [right; eapply IH; eassumption|].
    destruct H as [<-|H]; [left; reflexivity | right; eapply IH; eassumption].
  - right; eapply IH; eassumption.
Qed.

Lemma keep_run_cases (run : str) :
  keep_run run = [] \/ (keep_run run = run /\ 3 <= length run).
Proof.
  unfold keep_run. destruct (length run <=? 2) eqn:H; [left; reflexivity|].
  apply Nat.leb_gt in H. right; split; [reflexivity | lia].
Qed.

Lemma keep_run_In (run : str) (c : ascii) : In c (keep_run run) -> In c run.
Proof. destruct (keep_run_cases run) as [->|[-> _]]; [intros []|auto]. Qed.

Lemma sub_short_from_In (s : str) : forall (run : str) (c : ascii),
  In c (sub_short_from run s) -> In c run \/ In c s.
Proof.
  induction s as [|d s IH]; intros run c H; simpl in H.
  - left; apply keep_run_In; assumption.
  - destruct (is_word d).
    + destruct (IH _ _ H) as [H1|H1]; [|right; right; assumption].
      apply in_app_or in H1. destruct H1 as [H1|[<-|[]]];
        [left; assumption | right; left; reflexivity].
    + apply in_app_or in H. destruct H as [H|[<-|H]].
      * left; apply keep_run_In; assumption.
      * right; left; reflexivity.
      * destruct (IH _ _ H) as [[]|H1]. right; right; assumption.
Qed.

Lemma sub_spaces_from_In (s : str) : forall (b : bool) (c : ascii),
  In c (sub_spaces_from b s) -> c = space \/ In c s.
Proof.
  induction s as [|d s IH]; intros b c H; simpl in H; [contradiction|].
  destruct (is_space d).
  - destruct b.
    + destruct (IH _ _ H); [left | right; right]; assumption.
    + destruct H as [<-|H]; [left; reflexivity|].
      destruct (IH _ _ H); [left | right; right]; assumption.
  - destruct H as [<-|H]; [right; left; reflexivity|].
    destruct (IH _ _ H); [left | right; right]; assumption.
Qed.

Lemma lstrip_In (s : str) (c : ascii) : In c (lstrip s) -> In c s.
Proof.
  destruct (lstrip_split s) as [pre [Heq _]]. intros H.
  rewrite Heq. apply in_or_app; right; assumption.
Qed.

Lemma strip_In (s : str) (c : ascii) : In c (strip s) -> In c s.
Proof.
  unfold strip, rstrip. intros H. apply in_rev in H.
  apply lstrip_In in H. apply in_rev in H. apply lstrip_In; assumption.
Qed.

Lemma replace_In (old : ascii) (s : str) (c : ascii) :
  In c (replace old [space] s) -> c = space \/ (In c s /\ c <> old).
Proof.
  unfold replace. rewrite in_flat_map. intros [d [Hd Hc]].
  destruct (Ascii.eqb d old) eqn:E.
  - destruct Hc as [<-|[]]; left; reflexivity.
  - destruct Hc as [<-|[]]. right; split; [assumption|].
    apply Ascii.eqb_neq; assumption.
Qed.

Lemma join_In (l : list str) (c : ascii) :
  In c (join [space] l) -> c = space \/ exists t, In t l /\ In c t.
Proof.
  induction l as [|x l IH]; simpl; [contradiction|].
  destruct l as [|y l].
  - intros H. right; exists x; split; [left; reflexivity | assumption].
  - intros H. apply in_app_or in H. destruct H as [H|[<-|H]].
    + right; exists x; split; [left; reflexivity | assumption].
    + left; reflexivity.
    + destruct (IH H) as [->|[t [Ht Hc]]]; [left; reflexivity|].
      right; exists t; split; [right|]; assumption.
Qed.

(** Every character of the result is a space, or a character other than
    [.] and [,] that the lemmatiser returned for a kept token. *)
Lemma preprocess_text_chars (self : TicketClustering) (text : str) (c : ascii) :
  In c (preprocess_text self text) ->
  c = space \/
  (c <> dot /\ c <> comma /\
   exists t, In t (kept_tokens self text) /\ In c (lemmatizer self t)).
Proof.
  unfold preprocess_text. intros H.
  apply strip_In in H.
  apply sub_spaces_from_In in H. destruct H as [H|H]; [left; assumption|].
  apply sub_short_from_In in H. destruct H as [[]|H].
  apply replace_In in H. destruct H as [H|[H Hcomma]]; [left; assumption|].
  apply replace_In in H. destruct H as [H|[H Hdot]]; [left; assumption|].
  apply join_In in H. destruct H as [H|[t [Ht Hc]]]; [left; assumption|].
  apply in_map_iff in Ht. destruct Ht as [t0 [<- Ht0]].
  right; repeat split; try assumption. exists t0; split; assumption.
Qed.

(** The tokens are made of lowercase letters and [+]. *)
Lemma tokenize_plain (text t : str) :
  In t (tokenize text) -> Forall (fun c => plain c = true) t.
Proof.
  unfold tokenize, split, runs. intros Ht. apply Forall_forall. intros c Hc.
  destruct (runs_from_chars _ _ _ _ _ Ht Hc) as [[]|[Hin Hns]].
  apply sub_greeting_from_In in Hin.
  unfold sub_non_alpha, lower in Hin. rewrite map_map in Hin.
  apply in_map_iff in Hin. destruct Hin as [x [Hx _]].
  destruct (lower_then_sub_non_alpha x) as [H|H]; cbv zeta in H;
    rewrite Hx in H; [assumption|].
  rewrite H in Hns. discriminate.
Qed.

Lemma kept_tokens_tokenize (self : TicketClustering) (text t : str) :
  In t (kept_tokens self text) <->
  In t (tokenize text) /\ ~ In t (stop_words self).
Proof.
  unfold kept_tokens. rewrite filter_In, negb_true_iff, mem_false. tauto.
Qed.

(** ** Short words *)

Lemma keep_run_word (run : str) :
  Forall (fun c => is_word c = true) run ->
  Forall (fun c => is_word c = true) (keep_run run).
Proof. destruct (keep_run_cases run) as [->|[-> _]]; auto. Qed.

Lemma runs_sub_short_from (s : str) : forall run : str,
  Forall (fun c => is_word c = true) run ->
  Forall (fun r => 3 <= length r) (runs_from is_word [] (sub_short_from run s)).
Proof.
  assert (Hflush : forall run, Forall (fun c => is_word c = true) run ->
            Forall (fun r => 3 <= length r) (runs_from is_word [] (keep_run run))).
  { intros run Hrun. rewrite runs_from_all by (apply keep_run_word; assumption).
    simpl. destruct (keep_run_cases run) as [->|[-> Hlen]]; simpl; [constructor|].
    destruct run; simpl; [constructor | constructor; [assumption | constructor]]. }
  induction s as [|c s IH]; intros run Hrun; simpl.
  - apply Hflush; assumption.
  - destruct (is_word c) eqn:Hc.
    + apply IH. apply Forall_app; split; [assumption | repeat constructor; assumption].
    + rewrite runs_from_sep by assumption. apply Forall_app; split.
      * apply Hflush; assumption.
      * apply IH; constructor.
Qed.

Lemma sub_short_from_sep (a : str) : forall (run : str) (d : ascii) (s : str),
  is_word d = false ->
  sub_short_from run (a ++ d :: s) =
  sub_short_from run a ++ d :: sub_short_from [] s.
Proof.
  induction a as [|c a IH]; intros run d s Hd; simpl.
  - rewrite Hd; reflexivity.
  - destruct (is_word c).
    + apply IH; assumption.
    + rewrite (IH [] d s Hd), <- app_assoc; reflexivity.
Qed.

Lemma sub_short_from_word (t : str) : forall (run s : str),
  Forall (fun c => is_word c = true) t ->
  sub_short_from run (t ++ s) = sub_short_from (run ++ t) s.
Proof.
  induction t as [|c t IH]; intros run s Ht; simpl.
  - rewrite app_nil_r; reflexivity.
  - inversion Ht as [|? ? Hc Ht']; subst. rewrite Hc, IH by assumption.
    rewrite <- app_assoc; reflexivity.
Qed.

Lemma sub_short_long_word (t : str) :
  Forall (fun c => is_word c = true) t -> 3 <= length t ->
  sub_short_from [] t = t.
Proof.
  intros Ht Hlen. rewrite <- (app_nil_r t) at 1.
  rewrite sub_short_from_word by assumption. simpl. unfold keep_run.
  destruct (length t <=? 2) eqn:E; [apply Nat.leb_le in E; lia | reflexivity].
Qed.

(** ** Tokens that stand between spaces *)

Lemma join_delimited (l : list str) (t : str) :
  In t l -> delimited t (join [space] l).
Proof.
  induction l as [|x l IH]; [intros []|].
  intros [<-|Hin].
  - exists [], (match l with [] => [] | _ => space :: join [space] l end).
    split; [|split; [left; reflexivity|]].
    + destruct l; simpl; [rewrite app_nil_r|]; reflexivity.
    + destruct l; [left; reflexivity | right; eexists; reflexivity].
  - destruct (IH Hin) as [a [b [Heq [Ha Hb]]]].
    destruct l as [|y l]; [destruct Hin|].
    exists (x ++ space :: a), b. split; [|split; [|assumption]].
    + change (join [space] (x :: y :: l))
        with (x ++ [space] ++ join [space] (y :: l)).
      rewrite Heq, <- app_assoc. reflexivity.
    + right. destruct Ha as [->|[a' ->]].
      * exists x; reflexivity.
      * exists (x ++ space :: a'). rewrite <- app_assoc; reflexivity.
Qed.

Lemma replace_app (old : ascii) (new a b : str) :
  replace old new (a ++ b) = replace old new a ++ replace old new b.
Proof. unfold replace. apply flat_map_app. Qed.

Lemma replace_absent (old : ascii) (new t : str) :
  ~ In old t -> replace old new t = t.
Proof.
  induction t as [|c t IH]; intros H; [reflexivity|].
  unfold replace in *. simpl.
  destruct (Ascii.eqb c old) eqn:E.
  - apply Ascii.eqb_eq in E. exfalso; apply H; left; assumption.
  - simpl. rewrite IH; [reflexivity|]. intros Hin; apply H; right; assumption.
Qed.

Lemma replace_delimited (old : ascii) (t s : str) :
  old <> space -> ~ In old t ->
  delimited t s -> delimited t (replace old [space] s).
Proof.
  intros Hold Ht [a [b [-> [Ha Hb]]]].
  assert (Hsp : replace old [space] [space] = [space]).
  { apply replace_absent. intros [H|[]]. apply Hold; symmetry; assumption. }
  exists (replace old [space] a), (replace old [space] b).
  rewrite !replace_app, (replace_absent old [space] t Ht).
  split; [reflexivity|split].
  - destruct Ha as [->|[a' ->]]; [left; reflexivity|].
    right. exists (replace old [space] a'). rewrite replace_app, Hsp; reflexivity.
  - destruct Hb as [->|[b' ->]]; [left; reflexivity|].
    right. exists (replace old [space] b').
    change (space :: b') with ([space] ++ b').
    rewrite replace_app, Hsp; reflexivity.
Qed.

Lemma sub_short_delimited (t s : str) :
  Forall (fun c => is_word c = true) t -> 3 <= length t ->
  delimited t s -> delimited t (sub_short s).
Proof.
  intros Ht Hlen [a [b [-> [Ha Hb]]]].
  assert (Hsp : is_word space = false) by reflexivity.
  assert (Htail : exists b2, sub_short_from [] (t ++ b) = t ++ b2 /\ right_ok b2).
  { destruct Hb as [->|[b' ->]].
    - exists []. rewrite !app_nil_r.
      split; [apply sub_short_long_word; assumption | left; reflexivity].
    - exists (space :: sub_short_from [] b').
      rewrite sub_short_from_sep, sub_short_long_word by assumption.
      split; [reflexivity | right; eexists; reflexivity]. }
  destruct Htail as [b2 [Heq Hb2]]. unfold sub_short.
  destruct Ha as [->|[a' ->]].
  - exists [], b2. simpl. split; [assumption | split; [left; reflexivity | assumption]].
  - exists (sub_short_from [] a' ++ [space]), b2.
    rewrite <- app_assoc. simpl.
    rewrite sub_short_from_sep, Heq, <- app_assoc by assumption.
    split; [reflexivity | split; [right; eexists; reflexivity | assumption]].
Qed.

Lemma delimited_split (t s : str) :
  t <> [] -> Forall (fun c => is_space c = false) t ->
  delimited t s -> In t (split s).
Proof.
  intros Hne Ht [a [b [-> [Ha Hb]]]]. unfold split, runs.
  set (p := fun c => negb (is_space c)).
  assert (Hp : Forall (fun c => p c = true) t).
  { eapply Forall_impl; [|exact Ht]. intros c Hc. unfold p; rewrite Hc; reflexivity. }
  assert (Hsp : p space = false) by reflexivity.
  assert (Htail : In t (runs_from p [] (t ++ b))).
  { destruct Hb as [->|[b' ->]].
    - rewrite app_nil_r, runs_from_all by assumption. simpl.
      destruct t; [congruence | left; reflexivity].
    - rewrite runs_from_sep, runs_from_all by assumption. simpl.
      destruct t; [congruence | left; reflexivity]. }
  destruct Ha as [->|[a' ->]]; [exact Htail|].
  rewrite <- app_assoc. simpl. rewrite runs_from_sep by assumption.
  apply in_or_app; right; assumption.
Qed.

(** A token of letters, three or more, that the lemmatiser returns is a
    token of the result. *)
Lemma long_word_survives (self : TicketClustering) (text t : str) :
  Forall (fun c => is_lower c = true) t -> 3 <= length t ->
  In t (map (lemmatizer self) (kept_tokens self text)) ->
  In t (split (preprocess_text self text)).
Proof.
  intros Hlow Hlen Hin. unfold preprocess_text, split.
  rewrite runs_strip, runs_sub_spaces
    by (intros c Hc; rewrite Hc; reflexivity).
  assert (Hword : Forall (fun c => is_word c = true) t).
  { eapply Forall_impl; [|exact Hlow]. apply is_lower_is_word. }
  assert (Hns : Forall (fun c => is_space c = false) t).
  { eapply Forall_impl; [|exact Hlow]. intros c Hc. apply plain_not_space.
    unfold plain; rewrite Hc; reflexivity. }
  assert (Hno : forall d, is_lower d = false -> ~ In d t).
  { intros d Hd Hint. rewrite Forall_forall in Hlow.
    rewrite (Hlow d Hint) in Hd; discriminate. }
  apply delimited_split; [destruct t; [simpl in Hlen; lia | discriminate] | assumption |].
  apply sub_short_delimited; [assumption..|].
  apply replace_delimited; [discriminate | apply Hno; reflexivity |].
  apply replace_delimited; [discriminate | apply Hno; reflexivity |].
  apply join_delimited; assumption.
Qed.

Lemma In_emit (cur t : str) (l : list str) :
  In t (emit cur l) <-> (cur <> [] /\ t = cur) \/ In t l.
Proof.
  destruct cur as [|c cur]; simpl.
  - split; [right; assumption | intros [[H _]|H]; [congruence | assumption]].
  - split.
    + intros [<-|H]; [left; split; [discriminate | reflexivity] | right; assumption].
    + intros [[_ ->]|H]; [left; reflexivity | right; assumption].
Qed.

(** The first run of a scan is the run being collected, extended; the
    later runs do not depend on it. *)
Lemma runs_from_shape (p : ascii -> bool) (s : str) :
  exists x rest, forall cur, runs_from p cur s = emit (cur ++ x) rest.
Proof.
  induction s as [|c s [x [rest IH]]]; simpl.
  - exists [], []. intros cur. rewrite app_nil_r; reflexivity.
  - destruct (p c).
    + exists (c :: x), rest. intros cur. rewrite IH, <- app_assoc; reflexivity.
    + exists [], (runs_from p [] s). intros cur. rewrite app_nil_r; reflexivity.
Qed.

(** A whitespace-delimited token made of word characters is a maximal
    run of word characters. *)
Lemma split_word_run (s : str) : forall (cur t : str),
  Forall (fun c => is_word c = true) t ->
  In t (runs_from (fun c => negb (is_space c)) cur s) ->
  In t (runs_from is_word cur s).
Proof.
  induction s as [|c s IH]; intros cur t Ht Hin; simpl in *; [assumption|].
  destruct (is_space c) eqn:Hs; simpl in Hin.
  - rewrite (is_space_not_word c Hs). apply In_emit. apply In_emit in Hin.
    destruct Hin as [H|H]; [left; assumption | right; apply IH; assumption].
  - destruct (is_word c) eqn:Hw; [apply IH; assumption|].
    apply In_emit; right. apply IH; [assumption|].
    destruct (runs_from_shape (fun c => negb (is_space c)) s) as [x [rest Hshape]].
    rewrite Hshape in Hin. rewrite Hshape. simpl.
    apply In_emit in Hin. apply In_emit.
    destruct Hin as [[_ ->]|H]; [|right; assumption].
    rewrite Forall_forall in Ht.
    rewrite (Ht c) in Hw; [discriminate|].
    apply in_or_app; left. apply in_or_app; right; left; reflexivity.
Qed.

(** ** The normaliser: statements *)

Lemma preprocess_text_word_runs (self : TicketClustering) (text : str) :
  Forall (fun r => 3 <= length r) (runs is_word (preprocess_text self text)).
Proof.
  unfold preprocess_text.
  rewrite runs_strip, runs_sub_spaces by exact is_space_not_word.
  apply runs_sub_short_from. constructor.
Qed.

Lemma sample_lemmatizer_plain : lemmatizer_plain sample_self.
Proof.
  intros t Ht. simpl. unfold sample_lemmatize.
  repeat match goal with
         | |- context [if ?b then _ else _] => destruct b
         end;
    try assumption; repeat constructor.
Qed.

(** C3, as the code has it.  For every text, each maximal run of word
    characters of the result has three characters or more, so does each
    whitespace-delimited token made of word characters only, and the
    result has no full stop and no comma.  When the lemmatiser returns
    lowercase letters and [+] only, the result consists of lowercase
    letters, [+] and spaces, and so has no digit: [+] is the one
    punctuation character that can remain, and a token that contains
    [+] can be shorter than three characters. *)
Theorem preprocess_text_output_shape (self : TicketClustering) (text : str) :
  let out := preprocess_text self text in
  (forall r, In r (runs is_word out) -> 3 <= length r) /\
  (forall t, In t (split out) ->
             Forall (fun c => is_word c = true) t -> 3 <= length t) /\
  ~ In dot out /\ ~ In comma out /\
  (lemmatizer_plain self ->
   Forall (fun c => plain c = true \/ c = space) out /\
   Forall (fun c => is_digit c = false) out).
Proof.
  cbv zeta.
  pose proof (preprocess_text_word_runs self text) as Hruns.
  rewrite Forall_forall in Hruns.
  assert (Hchars : lemmatizer_plain self ->
            Forall (fun c => plain c = true \/ c = space)
              (preprocess_text self text)).
  { intros Hlem. apply Forall_forall. intros c Hc.
    destruct (preprocess_text_chars _ _ _ Hc) as [->|[_ [_ [t [Ht Hct]]]]];
      [right; reflexivity|].
    left. apply kept_tokens_tokenize in Ht. destruct Ht as [Ht _].
    apply tokenize_plain in Ht. apply Hlem in Ht.
    rewrite Forall_forall in Ht. apply Ht; assumption. }
  repeat split.
  - exact Hruns.
  - intros t Ht Hword. apply Hruns. apply split_word_run; assumption.
  - intros H. destruct (preprocess_text_chars _ _ _ H) as [E|[E _]];
      [discriminate | apply E; reflexivity].
  - intros H. destruct (preprocess_text_chars _ _ _ H) as [E|[_ [E _]]];
      [discriminate | apply E; reflexivity].
  - apply Hchars; assumption.
  - eapply Forall_impl; [|apply Hchars; assumption].
    intros c [Hc| ->]; [apply plain_not_digit; assumption | reflexivity].
Qed.

Lemma preprocess_text_output_shape_witness :
  Forall (fun c => plain c = true \/ c = space)
    (preprocess_text sample_self (str_of "Please reset my password, kindly!")).
Proof.
  apply (preprocess_text_output_shape sample_self
           (str_of "Please reset my password, kindly!")).
  exact sample_lemmatizer_plain.
Defined.

(** C3 as stated fails: [c++] is normalised to [++], a token of two
    punctuation characters.  (No stop-word list contains [c++], and the
    lemmatiser returns it as it is.) *)
Lemma preprocess_text_keeps_plus :
  let out := preprocess_text sample_self (str_of "c++") in
  out = str_of "++" /\
  existsb is_punct out = true /\
  existsb (fun t => length t <? 3) (split out) = true.
Proof. vm_compute. repeat split. Qed.

Lemma operators_not_stop_words (english : list str) (w : str) :
  In w operators -> ~ In w (_initialize_stop_words english).
Proof.
  unfold _initialize_stop_words. intros Hop Hin.
  apply filter_In in Hin. destruct Hin as [_ Hin].
  apply negb_true_iff, mem_false in Hin. contradiction.
Qed.

Lemma operators_lowercase (w : str) :
  In w operators -> Forall (fun c => is_lower c = true) w.
Proof.
  intros H.
  assert (Hall : forallb (forallb is_lower) operators = true) by reflexivity.
  rewrite forallb_forall in Hall.
  apply Forall_forall. intros c Hc.
  specialize (Hall w H). rewrite forallb_forall in Hall. auto.
Qed.

(** *** The tokens of the result, lemma by lemma *)

Lemma replace_space_cons (old : ascii) (b : str) :
  replace old [space] (space :: b) = space :: replace old [space] b.
Proof.
  unfold replace. cbn [flat_map].
  destruct (Ascii.eqb space old); reflexivity.
Qed.

Lemma tidy_app_space (a b : str) :
  tidy (a ++ space :: b) = tidy a ++ space :: tidy b.
Proof.
  unfold tidy, sub_short.
  rewrite (replace_app dot), replace_space_cons.
  rewrite (replace_app comma), replace_space_cons.
  apply sub_short_from_sep. reflexivity.
Qed.

Lemma split_app_space (a b : str) :
  split (a ++ space :: b) = split a ++ split b.
Proof. unfold split, runs. apply runs_from_sep. reflexivity. Qed.

(** The tokens of the result are, in order, the tokens that lines 109
    and 110 leave of the lemmas of the kept tokens. *)
Lemma split_tidy_join {A : Type} (g : A -> str) (l : list A) :
  split (tidy (join [space] (map g l))) =
  flat_map (fun t => split (tidy (g t))) l.
Proof.
  induction l as [|x l IH]; [reflexivity|].
  destruct l as [|y l].
  - cbn [map join flat_map]. rewrite app_nil_r. reflexivity.
  - change (join [space] (map g (x :: y :: l)))
      with (g x ++ space :: join [space] (map g (y :: l))).
    rewrite tidy_app_space, split_app_space, IH. reflexivity.
Qed.

Lemma preprocess_text_split (self : TicketClustering) (text : str) :
  split (preprocess_text self text) =
  flat_map (fun t => split (tidy (lemmatizer self t))) (kept_tokens self text).
Proof.
  rewrite <- split_tidy_join. unfold preprocess_text, split.
  rewrite runs_strip, runs_sub_spaces
    by (intros c Hc; rewrite Hc; reflexivity).
  reflexivity.
Qed.

Lemma sub_short_from_keeps (s : str) : forall (run : str) (c : ascii),
  In c s -> is_word c = false -> In c (sub_short_from run s).
Proof.
  induction s as [|d s IH]; intros run c Hin Hc; [destruct Hin|].
  simpl. destruct Hin as [->|Hin].
  - rewrite Hc. apply in_or_app; right; left; reflexivity.
  - destruct (is_word d).
    + apply IH; assumption.
    + apply in_or_app; right; right. apply IH; assumption.
Qed.

Lemma sub_short_word (t : str) :
  Forall (fun c => is_word c = true) t -> sub_short t = keep_run t.
Proof.
  intros Ht. unfold sub_short. rewrite <- (app_nil_r t) at 1.
  rewrite sub_short_from_word by assumption. reflexivity.
Qed.

Lemma split_no_space (s : str) :
  Forall (fun c => is_space c = false) s -> split s = emit s [].
Proof.
  intros H. unfold split, runs. rewrite runs_from_all; [reflexivity|].
  eapply Forall_impl; [|exact H]. intros c Hc. rewrite Hc; reflexivity.
Qed.

(** Of a token of lowercase letters and [+], lines 109 and 110 leave
    the token itself or a token with [+]. *)
Lemma tidy_plain (t u : str) :
  Forall (fun c => plain c = true) t ->
  In u (split (tidy t)) -> u = t \/ In plus u.
Proof.
  intros Ht Hu. rewrite Forall_forall in Ht.
  assert (Hno : forall d, plain d = false -> ~ In d t).
  { intros d Hd Hin. rewrite (Ht d Hin) in Hd. discriminate. }
  unfold tidy in Hu.
  rewrite (replace_absent dot [space] t), (replace_absent comma [space] t) in Hu
    by (apply Hno; reflexivity).
  assert (Hns : Forall (fun c => is_space c = false) (sub_short t)).
  { apply Forall_forall. intros c Hc. unfold sub_short in Hc.
    apply sub_short_from_In in Hc. destruct Hc as [[]|Hc].
    apply plain_not_space, Ht, Hc. }
  rewrite split_no_space in Hu by assumption.
  apply In_emit in Hu. destruct Hu as [[Hne ->]|[]].
  destruct (in_dec ascii_dec plus t) as [Hp|Hp].
  - right. apply sub_short_from_keeps; [assumption | reflexivity].
  - left.
    assert (Hw : Forall (fun c => is_word c = true) t).
    { apply Forall_forall. intros c Hc. specialize (Ht c Hc).
      unfold plain in Ht. apply orb_true_iff in Ht. destruct Ht as [Hl|He].
      - apply is_lower_is_word; assumption.
      - apply Ascii.eqb_eq in He. subst c. contradiction. }
    rewrite sub_short_word in Hne |- * by assumption.
    destruct (keep_run_cases t) as [E|[E _]]; [congruence | exact E].
Qed.

Lemma domain_stop_words_no_plus (s : str) :
  In s domain_stop_words -> ~ In plus s.
Proof.
  intros Hs Hp.
  assert (Hall : forallb (fun w => negb (existsb (Ascii.eqb plus) w))
                   domain_stop_words = true) by reflexivity.
  rewrite forallb_forall in Hall. specialize (Hall s Hs).
  apply negb_true_iff in Hall.
  assert (Hex : existsb (Ascii.eqb plus) s = true)
    by (apply existsb_exists; exists plus; split;
        [assumption | apply Ascii.eqb_refl]).
  congruence.
Qed.

Lemma initialize_stop_words_no_plus (english : list str) (s : str) :
  (forall w, In w english -> ~ In plus w) ->
  In s (_initialize_stop_words english) -> ~ In plus s.
Proof.
  intros H Hs. unfold _initialize_stop_words in Hs.
  apply filter_In in Hs. destruct Hs as [Hs _].
  apply in_app_or in Hs.
  destruct Hs; [apply H | apply domain_stop_words_no_plus]; assumption.
Qed.

Lemma nltk_english_no_plus (w : str) : In w nltk_english -> ~ In plus w.
Proof.
  intros Hw Hp.
  assert (Hall : forallb (fun w => negb (existsb (Ascii.eqb plus) w))
                   nltk_english = true) by reflexivity.
  rewrite forallb_forall in Hall. specialize (Hall w Hw).
  apply negb_true_iff in Hall.
  assert (Hex : existsb (Ascii.eqb plus) w = true)
    by (apply existsb_exists; exists plus; split;
        [assumption | apply Ascii.eqb_refl]).
  congruence.
Qed.

(** C4, as the code has it by design.  For an object built by
    [__init__] and every text:
    - when no word of NLTK's list contains [+], a token of the result
      that is in the stop-word set is a token that lines 109 and 110
      leave of the lemma of a token which passed the stop-word filter
      and which the lemmatiser changed: the filter of line 102 runs
      before the lemmatiser and not after it;
    - a token of the text that is an operator is not in the stop-word
      set and passes the filter;
    - each of the operators [not], [got], [and], [other], [dont],
      [know], [there], [many], [too] and [add] that is a token of the
      text and that the lemmatiser returns unchanged is a token of the
      result.
    Nothing is stated about [un], [or], [i] and [my] in the result. *)
Theorem stop_words_and_operators (nltk : Resources) (here : str)
    (input output : option str) (text : str) :
  let self := __init__ nltk here input output in
  let out := preprocess_text self text in
  ((forall w, In w (stopwords_english nltk) -> ~ In plus w) ->
   forall u, In u (split out) -> In u (stop_words self) ->
   exists t, In t (kept_tokens self text) /\ lemmatizer self t <> t /\
             In u (split (tidy (lemmatizer self t)))) /\
  (forall tok, In tok (tokenize text) -> In tok operators ->
   ~ In tok (stop_words self) /\ In tok (kept_tokens self text)) /\
  (forall tok, In tok (tokenize text) ->
   In tok (map str_of ["not"; "got"; "and"; "other"; "dont"; "know";
                       "there"; "many"; "too"; "add"]%string) ->
   lemmatizer self tok = tok -> In tok (split out)).
Proof.
  intros self out.
  assert (Hops : forall tok, In tok (tokenize text) -> In tok operators ->
            ~ In tok (stop_words self) /\ In tok (kept_tokens self text)).
  { intros tok Htok Hop.
    assert (Hns : ~ In tok (stop_words self))
      by (apply operators_not_stop_words; assumption).
    split; [exact Hns | apply kept_tokens_tokenize; split; assumption]. }
  split; [|split; [exact Hops|]].
  - intros Hplus u Hu Hstop. unfold out in Hu.
    rewrite preprocess_text_split in Hu. apply in_flat_map in Hu.
    destruct Hu as [t [Ht Hu]]. exists t. split; [exact Ht|].
    split; [|exact Hu]. intros Hsame. rewrite Hsame in Hu.
    pose proof Ht as Hkept. apply kept_tokens_tokenize in Hkept.
    destruct Hkept as [Htok Hns].
    destruct (tidy_plain t u (tokenize_plain text t Htok) Hu) as [->|Hp];
      [contradiction|].
    exact (initialize_stop_words_no_plus _ u Hplus Hstop Hp).
  - intros tok Htok Hten Hsame.
    assert (Hop : In tok operators /\ 3 <= length tok).
    { simpl in Hten.
      repeat (destruct Hten as [<-|Hten];
              [split; [apply mem_In; reflexivity | simpl; lia]|]).
      destruct Hten. }
    destruct Hop as [Hop Hlen]. destruct (Hops tok Htok Hop) as [_ Hkept].
    apply long_word_survives;
      [apply operators_lowercase; exact Hop | exact Hlen |].
    rewrite <- Hsame. apply in_map. exact Hkept.
Qed.

Lemma stop_words_and_operators_witness :
  (exists t, In t (kept_tokens sample_self (str_of "Two users locked out")) /\
             lemmatizer sample_self t <> t /\
             In (str_of "user") (split (tidy (lemmatizer sample_self t)))) /\
  In (str_of "not")
    (split (preprocess_text sample_self (str_of "Password is NOT accepted"))).
Proof.
  split.
  - apply (proj1 (stop_words_and_operators sample_nltk (str_of ".") None None
                    (str_of "Two users locked out"))).
    + exact nltk_english_no_plus.
    + apply mem_In. reflexivity.
    + apply mem_In. reflexivity.
  - apply (proj2 (proj2 (stop_words_and_operators sample_nltk (str_of ".")
                           None None (str_of "Password is NOT accepted")))
             (str_of "not")).
    + apply mem_In. reflexivity.
    + apply mem_In. reflexivity.
    + reflexivity.
Defined.

(** C4 as stated fails: [users] is not a stop word and passes the
    filter, the lemmatiser turns it into [user], and [user], a word of
    the domain list, is a token of the result. *)
Lemma lemma_of_kept_token_is_stop_word :
  let text := str_of "Two users locked out" in
  let out := preprocess_text sample_self text in
  out = str_of "two user locked" /\
  mem (str_of "users") (stop_words sample_self) = false /\
  mem (str_of "user") (stop_words sample_self) = true /\
  mem (str_of "user") (split out) = true.
Proof. vm_compute. repeat split. Qed.

(** C9.  The result is a function of the text, the stop-word set and
    the lemmatiser alone: two objects with the same stop words (as
    sets) and the same lemmatiser (as functions) return the same string
    for the same text, whatever their other attributes. *)
Theorem preprocess_text_deterministic (self self' : TicketClustering) (text : str) :
  (forall w, In w (stop_words self) <-> In w (stop_words self')) ->
  (forall t, lemmatizer self t = lemmatizer self' t) ->
  preprocess_text self text = preprocess_text self' text.
Proof.
  intros Hstop Hlem. unfold preprocess_text.
  assert (Hkept : kept_tokens self text = kept_tokens self' text).
  { unfold kept_tokens. apply filter_ext. intros w. f_equal.
    destruct (mem w (stop_words self')) eqn:E.
    - apply mem_In. apply Hstop. apply mem_In; assumption.
    - apply mem_false. apply mem_false in E. rewrite Hstop; assumption. }
  rewrite Hkept. rewrite (map_ext _ _ Hlem). reflexivity.
Qed.

Lemma preprocess_text_deterministic_witness :
  preprocess_text sample_self (str_of "Invoice payment failed") =
  preprocess_text sample_self_again (str_of "Invoice payment failed").
Proof.
  apply (preprocess_text_deterministic sample_self sample_self_again).
  - intros w. exact (in_rev (stop_words sample_self) w).
  - reflexivity.
Defined.

(** ** The selector: what a run does *)

Lemma add_fits_nil (w : world) : add_fits w [] = w.
Proof. destruct w; unfold add_fits; simpl. rewrite app_nil_r; reflexivity. Qed.

Lemma add_fits_app (w : world) (l1 l2 : list fit_record) :
  add_fits (add_fits w l1) l2 = add_fits w (l1 ++ l2).
Proof. unfold add_fits; simpl. rewrite app_assoc; reflexivity. Qed.

Lemma score_candidate_run (sk : Sklearn) (X : matrix) (k : Z) (w : world) :
  score_candidate sk X k w =
  (add_fits w [candidate_fit sk X k], score_of sk X k).
Proof.
  unfold score_candidate, bind, fit, lift, score_of, add_fits, candidate_fit,
    candidate.
  destruct (kmeans_fit sk _ X); reflexivity.
Qed.

Lemma for_each_k_run (sk : Sklearn) (X : matrix) (K : list Z) :
  forall (acc : list Q) (w : world),
    for_each_k sk X K acc w =
    (add_fits w (map (candidate_fit sk X) (evaluated sk X K)),
     match scores_of sk X K with
     | inl e => inl e
     | inr l => inr (acc ++ l)
     end).
Proof.
  induction K as [|k K IH]; intros acc w; simpl.
  - unfold ret. rewrite add_fits_nil, app_nil_r; reflexivity.
  - unfold bind. rewrite score_candidate_run.
    destruct (score_of sk X k) as [e|s]; [reflexivity|].
    rewrite IH, add_fits_app. simpl.
    destruct (scores_of sk X K); [reflexivity|].
    rewrite <- app_assoc; reflexivity.
Qed.

Lemma select_among_run (sk : Sklearn) (X : matrix) (K : list Z) (w : world) :
  select_among sk X K w =
  (add_fits w (map (candidate_fit sk X) (evaluated sk X K)),
   match scores_of sk X K with
   | inl e => inl e
   | inr l =>
       match argmax l with
       | inl e => inl e
       | inr i => getitem_range K i
       end
   end).
Proof.
  unfold select_among, bind. rewrite for_each_k_run.
  destruct (scores_of sk X K) as [e|l]; [reflexivity|].
  simpl. unfold lift. destruct (argmax l); reflexivity.
Qed.

Lemma evaluated_incl (sk : Sklearn) (X : matrix) (K : list Z) (k : Z) :
  In k (evaluated sk X K) -> In k K.
Proof.
  induction K as [|k0 K IH]; simpl; [auto|].
  intros [H|H]; [left; assumption|].
  destruct (score_of sk X k0); [destruct H | right; auto].
Qed.

Lemma py_range_In (lo hi k : Z) :
  In k (py_range lo hi) <-> (lo <= k < hi)%Z.
Proof.
  unfold py_range. rewrite in_map_iff. split.
  - intros [i [<- Hi]]. apply in_seq in Hi. lia.
  - intros H. exists (Z.to_nat (k - lo)). split; [lia|].
    apply in_seq. lia.
Qed.

Lemma py_range_nth (lo hi : Z) (i : nat) :
  i < Z.to_nat (hi - lo) ->
  nth_error (py_range lo hi) i = Some (lo + Z.of_nat i)%Z.
Proof.
  intros H. unfold py_range.
  rewrite nth_error_map, nth_error_nth' with (d := 0) by (rewrite length_seq; assumption).
  rewrite seq_nth by assumption. reflexivity.
Qed.

Lemma py_range_length (lo hi : Z) : length (py_range lo hi) = Z.to_nat (hi - lo).
Proof. unfold py_range. rewrite length_map, length_seq; reflexivity. Qed.

Lemma py_range_empty (lo hi : Z) : (hi <= lo)%Z -> py_range lo hi = [].
Proof.
  intros H. unfold py_range. replace (Z.to_nat (hi - lo)) with 0 by lia.
  reflexivity.
Qed.

(** C2.  With [m = min(max_clusters, R // 8)] for a matrix of [R] rows:
    every [KMeans.fit] call that [find_optimal_clusters] makes has
    [2 <= n_clusters <= m]; a value it returns lies in the same range;
    and when [m < 2] it makes no call and raises [ValueError]. *)
Theorem find_optimal_clusters_range (sk : Sklearn) (X : matrix)
    (max_clusters : Z) (w : world) :
  let m := Z.min max_clusters (Z.of_nat (length X) / 8) in
  let run := find_optimal_clusters sk X max_clusters w in
  (exists new,
     fst run = add_fits w new /\
     Forall (fun f => (2 <= n_clusters (estimator f) <= m)%Z) new) /\
  (forall k, snd run = inr k -> (2 <= k <= m)%Z) /\
  ((m < 2)%Z -> fst run = w /\ exists msg, snd run = inl (ValueError msg)).
Proof.
  cbv zeta. unfold find_optimal_clusters, effective_max.
  set (m := Z.min max_clusters (Z.of_nat (length X) / 8)).
  rewrite select_among_run. simpl. split; [|split].
  - eexists; split; [reflexivity|].
    apply Forall_forall. intros f Hf.
    apply in_map_iff in Hf. destruct Hf as [k [<- Hk]]. simpl.
    apply evaluated_incl, py_range_In in Hk. lia.
  - intros k.
    destruct (scores_of sk X (py_range 2 (m + 1))) as [e|l]; [discriminate|].
    destruct (argmax l) as [e|i]; [discriminate|].
    unfold getitem_range.
    destruct (nth_error (py_range 2 (m + 1)) i) as [k'|] eqn:E; [|discriminate].
    intros H; injection H as <-.
    apply nth_error_In, py_range_In in E. lia.
  - intros Hm. rewrite py_range_empty by lia. simpl.
    split; [apply add_fits_nil | eexists; reflexivity].
Qed.

Lemma find_optimal_clusters_range_witness :
  let run := find_optimal_clusters toy_sklearn (sample_matrix 3) 10
               (world_with tickets16) in
  fst run = world_with tickets16 /\ exists msg, snd run = inl (ValueError msg).
Proof.
  apply (find_optimal_clusters_range toy_sklearn (sample_matrix 3) 10
           (world_with tickets16)).
  vm_compute. reflexivity.
Defined.

(** ** [np.argmax] *)

Open Scope Q_scope.

Lemma Qltb_true (a b : Q) : Qltb a b = true -> a < b.
Proof.
  unfold Qltb. rewrite negb_true_iff. intros H. apply Qnot_le_lt.
  intros Hle. apply Qle_bool_iff in Hle. congruence.
Qed.

Lemma Qltb_false (a b : Q) : Qltb a b = false -> b <= a.
Proof.
  unfold Qltb. rewrite negb_false_iff. apply Qle_bool_iff.
Qed.

Lemma argmax_from_first_max (l : list Q) :
  forall (pre : list Q) (best_i : nat) (best : Q),
    first_max pre best_i best ->
    exists v, first_max (pre ++ l) (argmax_from best_i best (length pre) l) v.
Proof.
  induction l as [|x l IH]; intros pre best_i best Hpre; simpl.
  - exists best. rewrite app_nil_r; assumption.
  - destruct Hpre as [Hat [Hmax Hfirst]].
    assert (Hlt : (best_i < length pre)%nat)
      by (apply nth_error_Some; congruence).
    replace (pre ++ x :: l) with ((pre ++ [x]) ++ l)
      by (rewrite <- app_assoc; reflexivity).
    replace (S (length pre)) with (length (pre ++ [x]))
      by (rewrite length_app; simpl; lia).
    assert (Hnth : forall j y, nth_error (pre ++ [x]) j = Some y ->
              (nth_error pre j = Some y /\ (j < length pre)%nat) \/
              (j = length pre /\ y = x)).
    { intros j y Hj. destruct (Nat.lt_ge_cases j (length pre)) as [Hlt'|Hge].
      - left. rewrite nth_error_app1 in Hj by assumption. auto.
      - right. rewrite nth_error_app2 in Hj by assumption.
        destruct (j - length pre)%nat as [|n] eqn:E; simpl in Hj.
        + split; [lia | congruence].
        + destruct n; discriminate. }
    destruct (Qltb best x) eqn:Hcmp.
    + apply Qltb_true in Hcmp. apply IH. repeat split.
      * rewrite nth_error_app2, Nat.sub_diag by lia. reflexivity.
      * intros j y Hj. destruct (Hnth j y Hj) as [[Hj' _]|[_ ->]].
        -- apply Qlt_le_weak. eapply Qle_lt_trans; [eapply Hmax; eassumption|assumption].
        -- apply Qle_refl.
      * intros j y Hlt' Hj. destruct (Hnth j y Hj) as [[Hj' _]|[-> _]]; [|lia].
        eapply Qle_lt_trans; [eapply Hmax; eassumption|assumption].
    + apply Qltb_false in Hcmp. apply IH. repeat split.
      * rewrite nth_error_app1 by assumption. assumption.
      * intros j y Hj. destruct (Hnth j y Hj) as [[Hj' _]|[_ ->]].
        -- eapply Hmax; eassumption.
        -- assumption.
      * intros j y Hlt' Hj. destruct (Hnth j y Hj) as [[Hj' _]|[-> _]]; [|lia].
        eapply Hfirst; eassumption.
Qed.

Lemma argmax_first_max (l : list Q) :
  l <> [] -> exists i v, argmax l = inr i /\ first_max l i v.
Proof.
  destruct l as [|x l]; [congruence|]. intros _. simpl.
  destruct (argmax_from_first_max l [x] 0%nat x) as [v Hv].
  - repeat split.
    + intros [|[|j]] y Hj; simpl in Hj; try discriminate.
      injection Hj as <-. apply Qle_refl.
    + intros j y Hlt; lia.
  - eexists _, v. split; [reflexivity | exact Hv].
Qed.

Close Scope Q_scope.

(** The scores that [scores_of] returns are those of the candidates,
    position by position. *)
Lemma scores_of_nth (sk : Sklearn) (X : matrix) (K : list Z) :
  forall l, scores_of sk X K = inr l ->
    length l = length K /\
    forall j k s, nth_error K j = Some k -> nth_error l j = Some s ->
                  score_of sk X k = inr s.
Proof.
  induction K as [|k0 K IH]; intros l H; simpl in H.
  - injection H as <-. split; [reflexivity|]. intros [|j]; discriminate.
  - destruct (score_of sk X k0) as [e|s0] eqn:E0; [discriminate|].
    destruct (scores_of sk X K) as [e|l0]; [discriminate|].
    injection H as <-. destruct (IH l0 eq_refl) as [Hlen Hnth].
    split; [simpl; congruence|].
    intros [|j] k s Hk Hs; simpl in *.
    + congruence.
    + eapply Hnth; eassumption.
Qed.

Lemma scores_of_defined (sk : Sklearn) (X : matrix) (K : list Z) :
  (forall k, In k K -> exists s, score_of sk X k = inr s) ->
  exists l, scores_of sk X K = inr l.
Proof.
  induction K as [|k0 K IH]; intros H; simpl.
  - eexists; reflexivity.
  - destruct (H k0 (or_introl eq_refl)) as [s0 ->].
    destruct IH as [l ->]; [intros k Hk; apply H; right; assumption|].
    eexists; reflexivity.
Qed.

(** What [select_among] returns when every candidate can be scored: a
    candidate of greatest score, the first such in the order of [K]. *)
Lemma select_among_first_max (sk : Sklearn) (X : matrix) (K : list Z) (w : world) :
  K <> [] ->
  (forall k, In k K -> exists s, score_of sk X k = inr s) ->
  exists i k s,
    snd (select_among sk X K w) = inr k /\
    nth_error K i = Some k /\ score_of sk X k = inr s /\
    (forall k' s', In k' K -> score_of sk X k' = inr s' -> (s' <= s)%Q) /\
    (forall j k' s', j < i -> nth_error K j = Some k' ->
                     score_of sk X k' = inr s' -> (s' < s)%Q).
Proof.
  intros Hne Hdef. rewrite select_among_run. simpl.
  destruct (scores_of_defined sk X K Hdef) as [l Hl]. rewrite Hl.
  destruct (scores_of_nth sk X K l Hl) as [Hlen Hnth].
  destruct (argmax_first_max l) as [i [v [Harg [Hat [Hmax Hfirst]]]]].
  { intros ->. destruct K; [congruence | discriminate]. }
  rewrite Harg. unfold getitem_range.
  assert (Hi : i < length K)
    by (rewrite <- Hlen; apply nth_error_Some; congruence).
  destruct (nth_error K i) as [k|] eqn:Ek;
    [|apply nth_error_None in Ek; lia].
  exists i, k, v.
  split; [reflexivity|]. split; [exact Ek|].
  split; [eapply Hnth; eassumption|]. split.
  - intros k' s' Hin Hs'. apply In_nth_error in Hin. destruct Hin as [j Hj].
    assert (Hjl : j < length l)
      by (rewrite Hlen; apply nth_error_Some; congruence).
    destruct (nth_error l j) as [x|] eqn:Ex; [|apply nth_error_None in Ex; lia].
    pose proof (Hnth j k' x Hj Ex) as Hx.
    assert (x = s') by congruence. subst x. eapply Hmax; eassumption.
  - intros j k' s' Hlt Hj Hs'.
    assert (Hjl : j < length l) by lia.
    destruct (nth_error l j) as [x|] eqn:Ex; [|apply nth_error_None in Ex; lia].
    pose proof (Hnth j k' x Hj Ex) as Hx.
    assert (x = s') by congruence. subst x. eapply Hfirst; eassumption.
Qed.

(** C5.  When the range of candidates is not empty and every candidate
    can be fitted and scored, [find_optimal_clusters] returns a
    candidate [k] whose score is the greatest; every smaller candidate
    has a strictly smaller score, so among the candidates of greatest
    score [k] is the smallest. *)
Theorem find_optimal_clusters_first_maximum (sk : Sklearn) (X : matrix)
    (max_clusters : Z) (w : world) :
  let m := Z.min max_clusters (Z.of_nat (length X) / 8) in
  (2 <= m)%Z ->
  (forall k, (2 <= k <= m)%Z -> exists s, score_of sk X k = inr s) ->
  exists k s,
    snd (find_optimal_clusters sk X max_clusters w) = inr k /\
    (2 <= k <= m)%Z /\ score_of sk X k = inr s /\
    (forall k' s', (2 <= k' <= m)%Z -> score_of sk X k' = inr s' ->
                   (s' <= s)%Q) /\
    (forall k' s', (2 <= k' < k)%Z -> score_of sk X k' = inr s' ->
                   (s' < s)%Q) /\
    (forall k' s', (2 <= k' <= m)%Z -> score_of sk X k' = inr s' ->
                   (s' == s)%Q -> (k <= k')%Z).
Proof.
  intros m Hm Hdef. unfold find_optimal_clusters, effective_max. fold m.
  set (K := py_range 2 (m + 1)).
  assert (HK : forall k, In k K <-> (2 <= k <= m)%Z).
  { intros k. unfold K. rewrite py_range_In. lia. }
  destruct (select_among_first_max sk X K w) as [i [k [s [Hrun [Hi [Hs [Hmax Hfirst]]]]]]].
  - intros HK0. assert (H2 : In 2%Z K) by (apply HK; lia).
    rewrite HK0 in H2. destruct H2.
  - intros k Hk. apply Hdef, HK, Hk.
  - assert (Hlt : i < Z.to_nat (m + 1 - 2)).
    { rewrite <- py_range_length. apply nth_error_Some. fold K. congruence. }
    assert (Hk : k = (2 + Z.of_nat i)%Z).
    { unfold K in Hi. rewrite py_range_nth in Hi by assumption. congruence. }
    assert (Hsmaller : forall k' s', (2 <= k' < k)%Z ->
              score_of sk X k' = inr s' -> (s' < s)%Q).
    { intros k' s' Hk' Hs'. apply (Hfirst (Z.to_nat (k' - 2)) k' s'); [lia | | assumption].
      unfold K. rewrite py_range_nth by lia. f_equal. lia. }
    exists k, s. split; [exact Hrun|]. split; [lia|]. split; [exact Hs|].
    split; [|split].
    + intros k' s' Hk' Hs'. apply (Hmax k' s'); [apply HK|]; assumption.
    + exact Hsmaller.
    + intros k' s' Hk' Hs' Heq.
      destruct (Z.lt_ge_cases k' k) as [Hlt'|Hge]; [|lia].
      exfalso. assert (Hc : (s' < s)%Q) by (apply (Hsmaller k' s'); [lia | assumption]).
      rewrite Heq in Hc. exact (Qlt_irrefl s Hc).
Qed.

Lemma find_optimal_clusters_first_maximum_witness :
  exists k s,
    snd (find_optimal_clusters toy_sklearn (sample_matrix 24) 10
           (world_with tickets16)) = inr k /\
    (2 <= k <= 3)%Z /\ score_of toy_sklearn (sample_matrix 24) k = inr s.
Proof.
  destruct (find_optimal_clusters_first_maximum toy_sklearn (sample_matrix 24) 10
              (world_with tickets16)) as [k [s [H1 [H2 [H3 _]]]]].
  - vm_compute. discriminate.
  - intros k _. unfold score_of. simpl. eexists; reflexivity.
  - exists k, s. split; [exact H1 | split; [exact H2 | exact H3]].
Defined.

(** ** Evaluation in another order *)

(** What the evaluation of a candidate returns does not depend on the
    world it starts from, hence not on the candidates evaluated before:
    the loop body builds a new estimator with [random_state=42]. *)
Lemma score_candidate_independent (sk : Sklearn) (X : matrix) (k : Z)
    (w w' : world) :
  snd (score_candidate sk X k w) = snd (score_candidate sk X k w').
Proof. rewrite !score_candidate_run. reflexivity. Qed.













(** ** Runs of the driver *)

Lemma bind_inr {A B : Type} (m : M A) (f : A -> M B) (w w' : world) (b : B) :
  bind m f w = (w', inr b) ->
  exists a w1, m w = (w1, inr a) /\ f a w1 = (w', inr b).
Proof.
  unfold bind. destruct (m w) as [w1 [e|a]]; [discriminate|].
  intros H. exists a, w1. split; [reflexivity | exact H].
Qed.

Lemma lift_inr {A : Type} (r : result A) (w w' : world) (a : A) :
  lift r w = (w', inr a) -> w' = w /\ r = inr a.
Proof. unfold lift. intros H. injection H as <- ->. split; reflexivity. Qed.

Ltac invert_run H :=
  let a := fresh "v" in
  let w1 := fresh "w" in
  let H1 := fresh "Hstep" in
  apply bind_inr in H; destruct H as [a [w1 [H1 H]]];
  try (apply lift_inr in H1; destruct H1 as [-> H1]).

Lemma read_csv_inr (path : str) (w w' : world) (df : DataFrame) :
  read_csv path w = (w', inr df) ->
  w' = w /\ lookup_file path (files w) = Some df.
Proof.
  unfold read_csv. destruct (lookup_file path (files w)); [|discriminate].
  intros H; injection H as <- <-. split; reflexivity.
Qed.

(** *** Frames *)

Lemma combine_map_fst {A B C : Type} (f : A -> B) (g : A -> C) (l : list A) :
  combine (map f l) (map g l) = map (fun x => (f x, g x)) l.
Proof. induction l; simpl; congruence. Qed.

Lemma prepare_frame (self : TicketClustering) (df df2 df3 : DataFrame)
    (question description_clean : list cell) :
  getitem_list df [Inquiry_id; Question] = inr df2 ->
  getitem df2 Question = inr question ->
  setitem df2 Description_clean (map (clean_cell self) question) = inr df3 ->
  getitem df3 Description_clean = inr description_clean ->
  exists i q,
    index_of Inquiry_id (columns df) = Some i /\
    index_of Question (columns df) = Some q /\
    getitem df Question = inr question /\
    description_clean = map (clean_cell self) question /\
    columns df3 = [Inquiry_id; Question; Description_clean] /\
    rows df3 = prepared_rows self i q df.
Proof.
  unfold getitem_list. simpl.
  destruct (index_of Inquiry_id (columns df)) as [i|] eqn:Ei; [|discriminate].
  destruct (index_of Question (columns df)) as [q|] eqn:Eq; [|discriminate].
  intros H; injection H as <-.
  unfold getitem at 1. simpl. intros H; injection H as <-.
  rewrite !map_map. simpl.
  unfold setitem. simpl. rewrite !length_map, Nat.eqb_refl.
  intros H; injection H as <-.
  unfold getitem. simpl. intros H; injection H as <-.
  exists i, q. repeat split; try reflexivity.
  - rewrite Eq. reflexivity.
  - rewrite combine_map_fst, !map_map. apply map_ext. reflexivity.
  - unfold prepared_rows.
    rewrite combine_map_fst, !map_map. apply map_ext. reflexivity.
Qed.

Lemma mask_filter {A : Type} (f : A -> bool) (l : list A) :
  map fst (filter snd (combine l (map f l))) = filter f l.
Proof.
  induction l as [|x l IH]; simpl; [reflexivity|].
  destruct (f x); simpl; congruence.
Qed.

Lemma filter_full {A : Type} (f : A -> bool) (l : list A) :
  length (filter f l) = length l -> forall x, In x l -> f x = true.
Proof.
  induction l as [|y l IH]; simpl; [intros _ x []|].
  pose proof (filter_length_le f l) as Hle.
  destruct (f y) eqn:Ey; simpl; intros Hlen x [<-|Hx]; try lia; auto.
Qed.

Lemma setitem_length (df df' : DataFrame) (name : str) (values : list cell) :
  setitem df name values = inr df' -> length values = length (rows df).
Proof.
  unfold setitem. destruct (length values =? length (rows df)) eqn:E;
    [|discriminate].
  intros _. apply Nat.eqb_eq; assumption.
Qed.

Lemma find_optimal_clusters_files (sk : Sklearn) (X : matrix) (n : Z) (w : world) :
  files (fst (find_optimal_clusters sk X n w)) = files w.
Proof.
  unfold find_optimal_clusters. rewrite select_among_run. reflexivity.
Qed.

(** A run of [cluster_tickets] that returns has read a file in which no
    question is normalised to the empty string. *)
Lemma cluster_tickets_returns_all_clean (sk : Sklearn) (self : TicketClustering)
    (w w' : world) :
  cluster_tickets sk self w = (w', inr tt) ->
  exists df,
    lookup_file (input_file self) (files w) = Some df /\
    ~ In [] (cleaned self df).
Proof.
  unfold cluster_tickets. intros H.
  do 13 invert_run H.
  apply read_csv_inr in Hstep. destruct Hstep as [-> Hfile].
  destruct (prepare_frame self _ _ _ _ _ Hstep0 Hstep1 Hstep2 Hstep3)
    as [i [q [Hi [Hq [Hquestion [Hclean [Hcols Hrows]]]]]]].
  exists v. split; [assumption|].
  apply setitem_length in Hstep8, Hstep10.
  unfold getitem_mask in Hstep8. simpl in Hstep8.
  assert (Hv3 : v3 = map (fun r => nth 2 r NaN) (rows v2)).
  { unfold getitem in Hstep3. rewrite Hcols in Hstep3. simpl in Hstep3.
    congruence. }
  rewrite Hv3, map_map in Hstep8.
  rewrite (mask_filter (fun r => negb (cell_eqb (nth 2 r NaN) (Str []))))
    in Hstep8.
  rewrite Hstep10 in Hstep8. symmetry in Hstep8.
  pose proof (filter_full _ _ Hstep8) as Hall.
  unfold cleaned, questions. rewrite Hquestion.
  intros Hin. apply in_map_iff in Hin. destruct Hin as [c [Hc Hin]].
  assert (Hrow : In (nth 2 [NaN; NaN; clean_cell self c] NaN) v3).
  { rewrite Hclean. simpl. apply in_map; assumption. }
  rewrite Hv3 in Hrow. apply in_map_iff in Hrow. destruct Hrow as [r [Hr Hrin]].
  specialize (Hall r Hrin). cbv beta in Hall. rewrite Hr in Hall. simpl in Hall.
  unfold clean_cell in Hall. rewrite Hc in Hall. discriminate.
Qed.

(** C1: the code fails where the claim promises a labelled file.  With
    a seventeenth ticket whose text is made of digits, the run raises
    for every value of the scikit-learn record; with the stand-in the
    selection and the final fit are made (two fits), then the
    assignment of line 191 raises [ValueError], and no file is written. *)
Theorem cluster_tickets_blank_ticket_raises :
  In [] (cleaned sample_self tickets17) /\
  (forall sk : Sklearn,
     exists e, snd (cluster_tickets sk sample_self (world_with tickets17)) = inl e) /\
  let run := cluster_tickets toy_sklearn sample_self (world_with tickets17) in
  snd run = inl (ValueError "Length of values does not match length of index") /\
  length (fits (fst run)) = 2 /\
  files (fst run) = files (world_with tickets17).
Proof.
  assert (Hblank : In [] (cleaned sample_self tickets17)).
  { apply mem_In. reflexivity. }
  split; [exact Hblank|]. split.
  - intros sk.
    destruct (cluster_tickets sk sample_self (world_with tickets17))
      as [w' [e|[]]] eqn:Hrun; [exists e; reflexivity|].
    exfalso. apply cluster_tickets_returns_all_clean in Hrun.
    destruct Hrun as [df [Hfile Hno]]. simpl in Hfile.
    change (str_eqb (input_file sample_self) (input_file sample_self))
      with true in Hfile.
    injection Hfile as <-. contradiction.
  - vm_compute. repeat split.
Qed.

(** *** Sorting *)

Section SortFacts.
Context {A : Type} (key : A -> cell) (lab : A -> Z).

Lemma insert_by_perm (x : A) (l : list A) :
  Permutation (insert_by key x l) (x :: l).
Proof.
  induction l as [|y l IH]; simpl; [reflexivity|].
  destruct (cell_leb (key x) (key y)); [reflexivity|].
  rewrite IH. apply perm_swap.
Qed.

Lemma sort_by_perm (l : list A) : Permutation (sort_by key l) l.
Proof.
  induction l as [|x l IH]; simpl; [reflexivity|].
  rewrite insert_by_perm. constructor; assumption.
Qed.

Lemma insert_by_sorted (x : A) (l : list A) :
  (forall y, In y (x :: l) -> key y = Int (lab y)) ->
  Sorted Z.le (map lab l) ->
  Sorted Z.le (map lab (insert_by key x l)).
Proof.
  intros Hkey. induction l as [|y l IH]; simpl; intros Hs.
  - repeat constructor.
  - rewrite (Hkey x), (Hkey y) by (simpl; auto). simpl.
    destruct (Z.leb (lab x) (lab y)) eqn:E; simpl.
    + constructor; [assumption|]. constructor. apply Z.leb_le; assumption.
    + apply Z.leb_gt in E. inversion Hs as [|? ? Hs' Hhd]; subst.
      constructor.
      * apply IH; [|assumption]. intros z [<-|Hz]; apply Hkey; simpl; auto.
      * destruct l as [|z l]; simpl.
        -- constructor. lia.
        -- rewrite (Hkey x), (Hkey z) by (simpl; auto). simpl.
           inversion Hhd; subst.
           destruct (Z.leb (lab x) (lab z)); constructor; lia.
Qed.

Lemma sort_by_sorted (l : list A) :
  (forall y, In y l -> key y = Int (lab y)) ->
  Sorted Z.le (map lab (sort_by key l)).
Proof.
  induction l as [|x l IH]; simpl; intros Hkey; [constructor|].
  apply insert_by_sorted.
  - intros y [<-|Hy]; [apply Hkey; left; reflexivity|].
    apply Hkey; right. eapply Permutation_in; [apply sort_by_perm|]; assumption.
  - apply IH. intros y Hy; apply Hkey; right; assumption.
Qed.
End SortFacts.

Lemma labelled_rows_label (self : TicketClustering) (i q : nat)
    (df : DataFrame) (labels : list Z) (r : list cell) :
  In r (labelled_rows self i q df labels) -> nth 3 r NaN = Int (label_of r).
Proof.
  unfold labelled_rows. intros H. apply in_map_iff in H.
  destruct H as [[r0 z] [<- Hin]]. apply in_combine_l in Hin.
  unfold prepared_rows in Hin. apply in_map_iff in Hin.
  destruct Hin as [r1 [<- _]]. reflexivity.
Qed.

(** C7, as the code has it.  A run of [cluster_tickets] that returns
    has written, at [output_file], a frame with the four columns
    [Inquiry_id], [Question], [Description_clean] and [Label]; its rows
    are the rows of the input file, each with its identifier, its
    question, its normalised text and an integer label, in ascending
    order of the label. *)
Theorem cluster_tickets_output (sk : Sklearn) (self : TicketClustering)
    (w w' : world) :
  cluster_tickets sk self w = (w', inr tt) ->
  exists df out i q labels,
    lookup_file (input_file self) (files w) = Some df /\
    files w' = (output_file self, out) :: files w /\
    columns out = [Inquiry_id; Question; Description_clean; Label] /\
    index_of Inquiry_id (columns df) = Some i /\
    index_of Question (columns df) = Some q /\
    length labels = length (rows df) /\
    Permutation (rows out) (labelled_rows self i q df labels) /\
    map (fun r => nth 3 r NaN) (rows out) = map Int (map label_of (rows out)) /\
    Sorted Z.le (map label_of (rows out)).
Proof.
  unfold cluster_tickets. intros H.
  do 13 invert_run H.
  apply read_csv_inr in Hstep. destruct Hstep as [-> Hfile].
  destruct (prepare_frame self _ _ _ _ _ Hstep0 Hstep1 Hstep2 Hstep3)
    as [i [q [Hi [Hq [Hquestion [Hclean [Hcols Hrows]]]]]]].
  pose proof (setitem_length _ _ _ _ Hstep10) as Hlen.
  rewrite length_map, Hrows in Hlen. unfold prepared_rows in Hlen.
  rewrite length_map in Hlen.
  assert (Hfiles : files w1 = files w).
  { pose proof (find_optimal_clusters_files sk v5 10 w) as Hf.
    rewrite Hstep6 in Hf. exact Hf. }
  assert (Hv10 : columns v10 = [Inquiry_id; Question; Description_clean; Label] /\
                 rows v10 = labelled_rows self i q v (labels_ v7)).
  { unfold setitem in Hstep10. rewrite Hcols in Hstep10. simpl in Hstep10.
    destruct (_ =? _); [|discriminate]. injection Hstep10 as <-. simpl.
    split; [reflexivity|]. unfold labelled_rows. rewrite Hrows.
    generalize (prepared_rows self i q v) as l. generalize (labels_ v7) as zs.
    induction zs as [|z zs IH]; intros [|r l]; simpl; try reflexivity.
    rewrite IH; reflexivity. }
  destruct Hv10 as [Hcols10 Hrows10].
  assert (Hv11 : columns v11 = columns v10 /\
                 rows v11 = sort_by (fun r => nth 3 r NaN) (rows v10)).
  { unfold sort_values in Hstep11. rewrite Hcols10 in Hstep11.
    simpl in Hstep11. destruct (_ || _); [|discriminate].
    injection Hstep11 as <-. split; [symmetry; exact Hcols10 | reflexivity]. }
  destruct Hv11 as [Hcols11 Hrows11].
  unfold to_csv in H. injection H as <-. simpl.
  assert (Hperm : Permutation (rows v11) (labelled_rows self i q v (labels_ v7))).
  { rewrite Hrows11, Hrows10. apply sort_by_perm. }
  assert (Hkey : forall r, In r (rows v11) -> nth 3 r NaN = Int (label_of r)).
  { intros r Hr. eapply labelled_rows_label.
    eapply Permutation_in; [exact Hperm | exact Hr]. }
  exists v, v11, i, q, (labels_ v7).
  repeat split; try assumption.
  - rewrite Hfiles; reflexivity.
  - congruence.
  - rewrite map_map. apply map_ext_in. exact Hkey.
  - rewrite Hrows11. apply sort_by_sorted. intros y Hy. apply Hkey.
    rewrite Hrows11.
    eapply Permutation_in; [apply Permutation_sym, sort_by_perm | exact Hy].
Qed.

Lemma cluster_tickets_output_witness :
  exists out,
    files (fst (cluster_tickets toy_sklearn sample_self (world_with tickets16))) =
      (output_file sample_self, out) :: files (world_with tickets16) /\
    columns out = [Inquiry_id; Question; Description_clean; Label] /\
    Sorted Z.le (map label_of (rows out)).
Proof.
  destruct (cluster_tickets_output toy_sklearn sample_self (world_with tickets16)
              (fst (cluster_tickets toy_sklearn sample_self (world_with tickets16))))
    as [df [out [i [q [labels [_ [H1 [H2 [_ [_ [_ [_ [_ H3]]]]]]]]]]]]].
  - vm_compute. reflexivity.
  - exists out. split; [exact H1 | split; [exact H2 | exact H3]].
Defined.

(** C7 as stated fails: the file has a fourth column, the normalised
    text, besides the identifier, the question and the label. *)
Lemma output_has_description_clean_column :
  let w' := fst (cluster_tickets toy_sklearn sample_self (world_with tickets16)) in
  snd (cluster_tickets toy_sklearn sample_self (world_with tickets16)) = inr tt /\
  option_map columns (lookup_file (output_file sample_self) (files w')) =
    Some [Inquiry_id; Question; Description_clean; Label] /\
  option_map columns (lookup_file (output_file sample_self) (files w')) <>
    Some [Inquiry_id; Question; Label].
Proof.
  cbv zeta. split; [vm_compute; reflexivity|].
  split; [vm_compute; reflexivity|].
  vm_compute. discriminate.
Qed.

Lemma bind_lift {A B : Type} (r : result A) (f : A -> M B) (w : world) :
  bind (lift r) f w =
  match r with
  | inl e => (w, inl e)
  | inr a => f a w
  end.
Proof. unfold bind, lift. destruct r; reflexivity. Qed.

Lemma filter_none {A : Type} (f : A -> bool) (l : list A) :
  (forall x, In x l -> f x = false) -> filter f l = [].
Proof.
  induction l as [|x l IH]; intros H; simpl; [reflexivity|].
  rewrite (H x) by (left; reflexivity). apply IH. intros y Hy; apply H; right; assumption.
Qed.

(** C8.  Let the vectoriser, on an empty corpus, raise or return a
    matrix without rows.  When every question of the input file is
    normalised to the empty string, [cluster_tickets] raises, and the
    world is as before: no [KMeans.fit] call was made and no file
    written. *)
Theorem cluster_tickets_all_blank (sk : Sklearn) (self : TicketClustering)
    (w : world) (df : DataFrame) :
  lookup_file (input_file self) (files w) = Some df ->
  (forall t, In t (cleaned self df) -> t = []) ->
  (forall v X, fit_transform sk v [] = inr X -> X = []) ->
  let run := cluster_tickets sk self w in
  fst run = w /\ exists e, snd run = inl e.
Proof.
  intros Hfile Hblank Hempty. cbv zeta.
  cut (exists e, cluster_tickets sk self w = (w, inl e)).
  { intros [e ->]. split; [reflexivity | exists e; reflexivity]. }
  unfold cluster_tickets.
  unfold bind at 1. unfold read_csv at 1. rewrite Hfile.
  rewrite bind_lift.
  destruct (getitem_list df [Inquiry_id; Question]) as [e|df2] eqn:E0;
    [eexists; reflexivity|].
  rewrite bind_lift.
  destruct (getitem df2 Question) as [e|question] eqn:E1;
    [eexists; reflexivity|].
  rewrite bind_lift.
  destruct (setitem df2 Description_clean _) as [e|df3] eqn:E2;
    [eexists; reflexivity|].
  rewrite bind_lift.
  destruct (getitem df3 Description_clean) as [e|description_clean] eqn:E3;
    [eexists; reflexivity|].
  destruct (prepare_frame self _ _ _ _ _ E0 E1 E2 E3)
    as [i [q [Hi [Hq [Hquestion [Hclean [Hcols Hrows]]]]]]].
  assert (Hmask : getitem_mask df3
                    (map (fun c => negb (cell_eqb c (Str []))) description_clean) =
                  {| columns := [Inquiry_id; Question; Description_clean];
                     rows := [] |}).
  { unfold getitem_mask. rewrite Hcols. f_equal.
    assert (Hdc : description_clean = map (fun r => nth 2 r NaN) (rows df3)).
    { unfold getitem in E3. rewrite Hcols in E3. simpl in E3. congruence. }
    rewrite Hdc, map_map.
    rewrite (mask_filter (fun r => negb (cell_eqb (nth 2 r NaN) (Str [])))).
    apply filter_none. intros r Hr. rewrite Hrows in Hr.
    unfold prepared_rows in Hr. apply in_map_iff in Hr.
    destruct Hr as [r0 [<- Hr0]]. simpl. unfold clean_cell.
    rewrite (Hblank (preprocess_text self (py_str (nth q r0 NaN)))); [reflexivity|].
    unfold cleaned, questions. rewrite Hquestion.
    apply in_map_iff. exists (nth q r0 NaN). split; [reflexivity|].
    unfold getitem in Hquestion. rewrite Hq in Hquestion.
    injection Hquestion as <-.
    apply (in_map (fun r => nth q r NaN)); assumption. }
  rewrite Hmask. rewrite bind_lift. simpl. rewrite bind_lift.
  destruct (fit_transform sk _ []) as [e|X] eqn:E5;
    [eexists; reflexivity|].
  apply Hempty in E5. subst X.
  eexists; reflexivity.
Qed.

Lemma cluster_tickets_all_blank_witness :
  let run := cluster_tickets toy_sklearn sample_self (world_with tickets_blank) in
  fst run = world_with tickets_blank /\ exists e, snd run = inl e.
Proof.
  apply (cluster_tickets_all_blank toy_sklearn sample_self
           (world_with tickets_blank) tickets_blank).
  - vm_compute. reflexivity.
  - assert (E : cleaned sample_self tickets_blank = [[]; []; []])
      by (vm_compute; reflexivity).
    rewrite E. simpl. intros t [H|[H|[H|[]]]]; symmetry; exact H.
  - intros v X. simpl. discriminate.
Defined.

Lemma evaluated_all (sk : Sklearn) (X : matrix) (K : list Z) (l : list Q) :
  scores_of sk X K = inr l -> evaluated sk X K = K.
Proof.
  revert l. induction K as [|k K IH]; intros l H; simpl in *; [reflexivity|].
  destruct (score_of sk X k); [discriminate|].
  destruct (scores_of sk X K) as [e|l0]; [discriminate|].
  rewrite (IH l0 eq_refl). reflexivity.
Qed.

Lemma evaluated_prefix (sk : Sklearn) (X : matrix) (K : list Z) :
  exists K2, K = evaluated sk X K ++ K2.
Proof.
  induction K as [|k K [K2 IH]]; simpl; [exists []; reflexivity|].
  destruct (score_of sk X k).
  - exists K; reflexivity.
  - exists K2. simpl. congruence.
Qed.

Lemma scores_of_fitted (sk : Sklearn) (X : matrix) (K : list Z) (l : list Q) (k : Z) :
  scores_of sk X K = inr l -> In k K ->
  exists model, kmeans_fit sk (candidate k) X = inr model.
Proof.
  revert l. induction K as [|k0 K IH]; intros l H Hin; simpl in *; [contradiction|].
  destruct (score_of sk X k0) as [e|s] eqn:Es; [discriminate|].
  destruct (scores_of sk X K) as [e|l0]; [discriminate|].
  destruct Hin as [->|Hin]; [|eapply IH; [reflexivity | assumption]].
  unfold score_of in Es. destruct (kmeans_fit sk (candidate k) X) as [e|model];
    [discriminate | exists model; reflexivity].
Qed.

Lemma bind_step {A B : Type} (m : M A) (f : A -> M B) (w : world) :
  bind m f w =
  match m w with
  | (w', inl e) => (w', inl e)
  | (w', inr a) => f a w'
  end.
Proof. reflexivity. Qed.

Lemma cluster_tickets_trace (sk : Sklearn) (self : TicketClustering)
    (w w' : world) (r : result unit) :
  cluster_tickets sk self w = (w', r) ->
  (exists X K1 K2,
     py_range 2 (effective_max X 10 + 1) = K1 ++ K2 /\
     fits w' = fits w ++ map (candidate_fit sk X) K1 /\
     r <> inr tt)
  \/
  (exists X k model,
     In k (py_range 2 (effective_max X 10 + 1)) /\
     kmeans_fit sk (candidate k) X = inr model /\
     fits w' =
       fits w ++ map (candidate_fit sk X) (py_range 2 (effective_max X 10 + 1))
         ++ [candidate_fit sk X k]).
Proof.
  assert (Hearly : forall e, (w, @inl exn unit e) = (w', r) ->
            exists X K1 K2,
              py_range 2 (effective_max X 10 + 1) = K1 ++ K2 /\
              fits w' = fits w ++ map (candidate_fit sk X) K1 /\
              r <> inr tt).
  { intros e H. injection H as <- <-. exists [], [], (py_range 2 (effective_max [] 10 + 1)).
    simpl. rewrite app_nil_r. repeat split. discriminate. }
  unfold cluster_tickets. intros H.
  rewrite bind_step in H. unfold read_csv at 1 in H.
  destruct (lookup_file (input_file self) (files w)) as [df|];
    [|left; eapply Hearly; exact H].
  do 6 (rewrite bind_lift in H;
        match type of H with
        | match ?x with _ => _ end = _ =>
            destruct x; [left; eapply Hearly; exact H|]
        end).
  rename m into X.
  rewrite bind_step in H. unfold find_optimal_clusters in H.
  rewrite select_among_run in H.
  set (K := py_range 2 (effective_max X 10 + 1)) in *.
  destruct (evaluated_prefix sk X K) as [K2 HK2].
  assert (Hsel : forall e,
            (add_fits w (map (candidate_fit sk X) (evaluated sk X K)),
             @inl exn unit e) = (w', r) ->
            exists X K1 K2,
              py_range 2 (effective_max X 10 + 1) = K1 ++ K2 /\
              fits w' = fits w ++ map (candidate_fit sk X) K1 /\
              r <> inr tt).
  { intros e He. injection He as <- <-. exists X, (evaluated sk X K), K2.
    repeat split; [exact HK2 | discriminate]. }
  destruct (scores_of sk X K) as [e|scores] eqn:Escores;
    [left; eapply Hsel; exact H|].
  destruct (argmax scores) as [e|i]; [left; eapply Hsel; exact H|].
  unfold getitem_range in H.
  destruct (nth_error K i) as [k|] eqn:Ek; [|left; eapply Hsel; exact H].
  assert (Hk : In k K) by (eapply nth_error_In; eassumption).
  destruct (scores_of_fitted sk X K scores k Escores Hk) as [model Hmodel].
  rewrite (evaluated_all sk X K scores Escores) in H.
  clear Hearly Hsel.
  right. exists X, k, model. split; [exact Hk|]. split; [exact Hmodel|].
  assert (Hdone : forall (fs : list (str * DataFrame)) (r0 : result unit),
            ({| files := fs;
                fits := fits (add_fits w (map (candidate_fit sk X) K)) ++
                        [{| estimator := candidate k; data := X;
                            outcome := inr model |}] |}, r0) = (w', r) ->
            fits w' = fits w ++ map (candidate_fit sk X) K ++ [candidate_fit sk X k]).
  { intros fs r0 H0. injection H0 as <- _. simpl.
    unfold candidate_fit at 3. rewrite Hmodel, <- app_assoc. reflexivity. }
  rewrite bind_step in H. unfold fit at 1 in H.
  change {| n_clusters := k; init := k_means_pp; max_iter := 300;
            n_init := 10; random_state := 42 |} with (candidate k) in H.
  rewrite Hmodel in H.
  rewrite bind_lift in H.
  destruct (setitem _ Label _) as [e|clean_data] in H;
    [eapply Hdone; exact H|].
  rewrite bind_step in H. unfold _analyze_clusters, ret in H.
  rewrite bind_lift in H.
  destruct (setitem _ Label _) as [e|df4] in H;
    [eapply Hdone; exact H|].
  rewrite bind_lift in H.
  destruct (sort_values df4 Label) as [e|sorted] in H;
    [eapply Hdone; exact H|].
  unfold to_csv in H. eapply Hdone; exact H.
Qed.


(** The sixteen sample tickets: one selection fit ([k = 2]) and the
    final fit, with the same record. *)
Example final_fit_on_sample :
  let run := cluster_tickets toy_sklearn sample_self (world_with tickets16) in
  let X := map (fun r => [inject_Z (Z.of_nat (length (py_str (nth 2 r NaN))))])
             (prepared_rows sample_self 0 1 tickets16) in
  snd run = inr tt /\
  fits (fst run) = [candidate_fit toy_sklearn X 2; candidate_fit toy_sklearn X 2].
Proof. vm_compute. split; reflexivity. Qed.

(** * Further properties *)

(** ** The normaliser *)

Lemma lower_char_idempotent (c : ascii) : lower_char (lower_char c) = lower_char c.
Proof. ascii_cases c. Qed.

(** A character whose lowercase form is outside [[a-zA-Z+]] is read as
    a space. *)
Lemma non_letter_as_space (c : ascii) :
  is_ascii_letter (lower_char c) = false -> lower_char c <> plus ->
  (let d := lower_char c in
   if is_ascii_letter d || Ascii.eqb d plus then d else space) = space.
Proof.
  intros Hc Hplus. cbv zeta. rewrite Hc.
  apply Ascii.eqb_neq in Hplus. rewrite Hplus. reflexivity.
Qed.

(** The result depends on the text through its tokens only. *)
Lemma preprocess_text_tokens (self : TicketClustering) (t1 t2 : str) :
  tokenize t1 = tokenize t2 ->
  preprocess_text self t1 = preprocess_text self t2.
Proof.
  intros H. unfold preprocess_text, kept_tokens. rewrite H. reflexivity.
Qed.

(** X1.  The normaliser ignores letter case: a text and its lowercase
    form have the same result. *)
Theorem preprocess_text_ignores_case (self : TicketClustering) (text : str) :
  preprocess_text self (lower text) = preprocess_text self text.
Proof.
  apply preprocess_text_tokens. unfold tokenize. do 3 f_equal.
  unfold lower. rewrite map_map. apply map_ext. apply lower_char_idempotent.
Qed.

(** X2.  A character whose lowercase form, the one line 87 gives it,
    contains no ASCII letter and no [+] (a digit, a punctuation mark, a
    line break, an accented letter) has the effect of a space, wherever
    it stands in the text.  The condition is on the lowercase form
    because line 90 reads the text after line 87: beyond the code
    points of this embedding [str.lower] turns the Kelvin sign into
    [k], and the statement does not apply to it. *)
Theorem preprocess_text_non_letter_is_space (self : TicketClustering)
    (a b : str) (c : ascii) :
  is_ascii_letter (lower_char c) = false -> lower_char c <> plus ->
  preprocess_text self (a ++ c :: b) = preprocess_text self (a ++ space :: b).
Proof.
  intros Hc Hplus. apply preprocess_text_tokens. unfold tokenize. do 2 f_equal.
  unfold sub_non_alpha, lower. rewrite !map_map, !map_app. simpl.
  pose proof (non_letter_as_space c Hc Hplus) as E. cbv zeta in E.
  rewrite E. reflexivity.
Qed.

Lemma preprocess_text_non_letter_is_space_witness :
  preprocess_text sample_self (str_of "reset,password") =
  preprocess_text sample_self (str_of "reset password").
Proof.
  apply (preprocess_text_non_letter_is_space sample_self
           (str_of "reset") (str_of "password") ","%char).
  - reflexivity.
  - vm_compute. discriminate.
Defined.

Lemma sub_greeting_from_spaces (s : str) :
  Forall (fun c => c = space) s -> sub_greeting_from 0 s = s.
Proof.
  induction s as [|c s IH]; intros H; [reflexivity|].
  inversion H as [|? ? Hc Hs]; subst. cbn [sub_greeting_from].
  change (starts_with kindly (space :: s)) with false.
  change (starts_with hi (space :: s)) with false.
  change (starts_with hello (space :: s)) with false.
  cbv iota. rewrite IH by assumption. reflexivity.
Qed.

(** X3.  A text in which no character has an ASCII letter or [+] in
    its lowercase form (digits, dates, punctuation, an empty text) is
    normalised to the empty string, whatever the stop words and the
    lemmatiser. *)
Theorem preprocess_text_no_letters (self : TicketClustering) (text : str) :
  Forall (fun c => is_ascii_letter (lower_char c) = false /\
                   lower_char c <> plus) text ->
  preprocess_text self text = [].
Proof.
  intros H.
  assert (Hsp : Forall (fun c => c = space) (sub_non_alpha (lower text))).
  { unfold sub_non_alpha, lower. rewrite map_map.
    apply Forall_map. eapply Forall_impl; [|exact H].
    intros c [Hc Hplus]. exact (non_letter_as_space c Hc Hplus). }
  assert (Htok : tokenize text = []).
  { unfold tokenize, sub_greeting. rewrite sub_greeting_from_spaces by assumption.
    unfold split, runs. rewrite runs_from_none; [reflexivity|].
    eapply Forall_impl; [|exact Hsp]. intros c ->. reflexivity. }
  unfold preprocess_text, kept_tokens. rewrite Htok. reflexivity.
Qed.

Lemma preprocess_text_no_letters_witness :
  preprocess_text sample_self_again (str_of "2025-10-31 / #4711 (!)") = [].
Proof.
  apply (preprocess_text_no_letters sample_self_again).
  repeat constructor; vm_compute; discriminate.
Defined.

(** X4.  A text whose tokens are all stop words is normalised to the
    empty string. *)
Theorem preprocess_text_only_stop_words (self : TicketClustering) (text : str) :
  (forall t, In t (tokenize text) -> In t (stop_words self)) ->
  preprocess_text self text = [].
Proof.
  intros H.
  assert (Hkept : kept_tokens self text = []).
  { unfold kept_tokens. apply filter_none. intros t Ht.
    apply negb_false_iff, mem_In, H, Ht. }
  unfold preprocess_text. rewrite Hkept. reflexivity.
Qed.

Lemma preprocess_text_only_stop_words_witness :
  preprocess_text sample_self (str_of "Thanks and regards, dear team") <> [] /\
  preprocess_text sample_self (str_of "Thanks & regards, dear team!") = [].
Proof.
  split; [vm_compute; discriminate|].
  apply (preprocess_text_only_stop_words sample_self).
  intros t Ht. apply mem_In in Ht. apply mem_In. revert Ht.
  assert (E : tokenize (str_of "Thanks & regards, dear team!") =
              map str_of ["thanks"; "regards"; "dear"; "team"]%string)
    by (vm_compute; reflexivity).
  rewrite E. intros Ht. apply mem_In in Ht. simpl in Ht.
  destruct Ht as [<-|[<-|[<-|[<-|[]]]]]; vm_compute; reflexivity.
Defined.

(** *** Whitespace of the result *)

Lemma sub_spaces_from_true_head (s : str) (d : ascii) (rest : str) :
  sub_spaces_from true s = d :: rest -> is_space d = false.
Proof.
  induction s as [|c s IH]; simpl; [discriminate|].
  destruct (is_space c) eqn:Hc; [exact IH|].
  intros H; injection H as <- _. exact Hc.
Qed.

Lemma sub_spaces_from_pairs (s : str) :
  forall (b : bool) (a : str) (c d : ascii) (rest : str),
    sub_spaces_from b s = a ++ c :: d :: rest ->
    is_space c = true -> is_space d = false.
Proof.
  induction s as [|c0 s IH]; intros b a c d rest H Hc; simpl in H.
  - destruct a; discriminate.
  - destruct (is_space c0) eqn:H0.
    + destruct b; [eapply IH; eassumption|].
      destruct a as [|x a]; simpl in H; injection H as _ H.
      * eapply sub_spaces_from_true_head; eassumption.
      * eapply IH; eassumption.
    + destruct a as [|x a]; simpl in H; injection H as H1 H.
      * subst c0. congruence.
      * eapply IH; eassumption.
Qed.

Lemma sub_spaces_from_only_space (s : str) : forall (b : bool) (c : ascii),
  In c (sub_spaces_from b s) -> is_space c = true -> c = space.
Proof.
  induction s as [|c0 s IH]; intros b c H Hc; simpl in H; [contradiction|].
  destruct (is_space c0) eqn:H0.
  - destruct b; [eapply IH; eassumption|].
    destruct H as [<-|H]; [reflexivity | eapply IH; eassumption].
  - destruct H as [<-|H]; [congruence | eapply IH; eassumption].
Qed.

Lemma lstrip_head (s : str) (c : ascii) (t : str) :
  lstrip s = c :: t -> is_space c = false.
Proof.
  induction s as [|c0 s IH]; simpl; [discriminate|].
  destruct (is_space c0) eqn:H0; [exact IH|].
  intros H; injection H as <- _. exact H0.
Qed.

(** [strip s] stands in [s] between a prefix and a suffix. *)
Lemma strip_infix (s : str) : exists pre post, s = pre ++ strip s ++ post.
Proof.
  destruct (lstrip_split s) as [pre [Hpre _]].
  destruct (rstrip_split (lstrip s)) as [post [Hpost _]].
  exists pre, post. unfold strip. rewrite <- Hpost. exact Hpre.
Qed.

(** X5.  The result has no whitespace at its start or at its end, no
    two whitespace characters in a row, and no whitespace character
    other than the space. *)
Theorem preprocess_text_whitespace (self : TicketClustering) (text : str) :
  let out := preprocess_text self text in
  (forall c s, out = c :: s -> is_space c = false) /\
  (forall c s, out = s ++ [c] -> is_space c = false) /\
  (forall a c d b, out = a ++ c :: d :: b ->
                   is_space c = true -> is_space d = false) /\
  (forall c, In c out -> is_space c = true -> c = space).
Proof.
  cbv zeta. unfold preprocess_text.
  set (v := sub_short _).
  destruct (strip_infix (sub_spaces v)) as [pre [post Hu]].
  split; [|split; [|split]].
  - intros c s H. unfold strip in H.
    destruct (rstrip_split (lstrip (sub_spaces v))) as [post' [Hpost' _]].
    rewrite H in Hpost'. simpl in Hpost'.
    eapply lstrip_head; exact Hpost'.
  - intros c s H. unfold strip, rstrip in H.
    apply (f_equal (@rev ascii)) in H.
    rewrite rev_involutive, rev_app_distr in H. simpl in H.
    eapply lstrip_head; exact H.
  - intros a c d b H Hc. rewrite H in Hu.
    apply (sub_spaces_from_pairs v false (pre ++ a) c d (b ++ post)); [|exact Hc].
    change (sub_spaces_from false v) with (sub_spaces v).
    rewrite Hu, <- !app_assoc. reflexivity.
  - intros c Hin Hc.
    apply (sub_spaces_from_only_space v false c); [|exact Hc].
    change (sub_spaces_from false v) with (sub_spaces v).
    rewrite Hu. apply in_or_app; right. apply in_or_app; left. exact Hin.
Qed.

Lemma preprocess_text_whitespace_witness :
  is_space "r"%char = false /\ is_space "d"%char = false.
Proof.
  destruct (preprocess_text_whitespace sample_self
              (str_of "  Reset   the password.  ")) as [H1 [H2 _]].
  split.
  - apply (H1 "r"%char (str_of "eset password")). vm_compute. reflexivity.
  - apply (H2 "d"%char (str_of "reset passwor")). vm_compute. reflexivity.
Defined.

(** *** Tokens that pass unchanged *)

Lemma wordy_facts (t : str) :
  wordy t ->
  t <> [] /\
  Forall (fun c => is_word c = true) t /\
  Forall (fun c => is_space c = false) t /\
  (forall d, is_lower d = false -> ~ In d t).
Proof.
  intros [Hlen Hlow]. repeat split.
  - destruct t; [simpl in Hlen; lia | discriminate].
  - eapply Forall_impl; [|exact Hlow]. apply is_lower_is_word.
  - eapply Forall_impl; [|exact Hlow]. intros c Hc. apply plain_not_space.
    unfold plain; rewrite Hc; reflexivity.
  - intros d Hd Hin. rewrite Forall_forall in Hlow.
    rewrite (Hlow d Hin) in Hd. discriminate.
Qed.

Lemma join_cons (t t2 : str) (l : list str) :
  join [space] (t :: t2 :: l) = t ++ space :: join [space] (t2 :: l).
Proof. reflexivity. Qed.

Lemma replace_join (old : ascii) (l : list str) :
  is_lower old = false -> old <> space -> Forall wordy l ->
  replace old [space] (join [space] l) = join [space] l.
Proof.
  intros Hold Hsp Hl. apply replace_absent. intros Hin.
  apply join_In in Hin. destruct Hin as [E|[t [Ht Hc]]]; [contradiction|].
  rewrite Forall_forall in Hl.
  destruct (wordy_facts t (Hl t Ht)) as [_ [_ [_ Hno]]].
  exact (Hno old Hold Hc).
Qed.

Lemma sub_short_join (l : list str) :
  Forall wordy l -> sub_short (join [space] l) = join [space] l.
Proof.
  unfold sub_short. induction l as [|t l IH]; intros Hl; [reflexivity|].
  inversion Hl as [|? ? Ht Hl']; subst.
  destruct (wordy_facts t Ht) as [_ [Hword _]]. destruct Ht as [Hlen _].
  destruct l as [|t2 l].
  - simpl. apply sub_short_long_word; assumption.
  - rewrite join_cons, sub_short_from_sep by reflexivity.
    rewrite sub_short_long_word, IH by assumption. reflexivity.
Qed.

Lemma sub_spaces_from_token (t : str) : forall (b : bool) (s : str),
  t <> [] -> Forall (fun c => is_space c = false) t ->
  sub_spaces_from b (t ++ s) = t ++ sub_spaces_from false s.
Proof.
  induction t as [|c t IH]; intros b s Hne Ht; [congruence|].
  inversion Ht as [|? ? Hc Ht']; subst. simpl. rewrite Hc. f_equal.
  destruct t as [|c2 t]; [reflexivity|].
  apply IH; [discriminate | assumption].
Qed.

Lemma sub_spaces_join (l : list str) : forall b : bool,
  Forall wordy l -> sub_spaces_from b (join [space] l) = join [space] l.
Proof.
  induction l as [|t l IH]; intros b Hl; [reflexivity|].
  inversion Hl as [|? ? Ht Hl']; subst.
  destruct (wordy_facts t Ht) as [Hne [_ [Hns _]]].
  destruct l as [|t2 l].
  - simpl. rewrite <- (app_nil_r t) at 1.
    rewrite sub_spaces_from_token by assumption. simpl. apply app_nil_r.
  - rewrite join_cons, sub_spaces_from_token by assumption.
    simpl. rewrite IH by assumption. reflexivity.
Qed.

Lemma join_ends (l : list str) :
  Forall wordy l -> l <> [] ->
  (exists c s, join [space] l = c :: s /\ is_space c = false) /\
  (exists c s, join [space] l = s ++ [c] /\ is_space c = false).
Proof.
  induction l as [|t l IH]; intros Hl Hne; [congruence|].
  inversion Hl as [|? ? Ht Hl']; subst.
  destruct (wordy_facts t Ht) as [Htne [_ [Hns _]]].
  split.
  - destruct t as [|c t]; [congruence|]. inversion Hns; subst.
    destruct l; simpl; eexists _, _; split; try reflexivity; assumption.
  - destruct l as [|t2 l].
    + simpl. destruct (exists_last Htne) as [s [c ->]].
      exists c, s. split; [reflexivity|].
      rewrite Forall_forall in Hns. apply Hns. apply in_or_app; right; left; reflexivity.
    + destruct IH as [_ [c [s [E Hc]]]]; [assumption | discriminate|].
      exists c, (t ++ space :: s). rewrite join_cons, E, <- app_assoc.
      split; [reflexivity | assumption].
Qed.

Lemma strip_join (l : list str) :
  Forall wordy l -> strip (join [space] l) = join [space] l.
Proof.
  intros Hl. destruct l as [|t l]; [reflexivity|].
  destruct (join_ends (t :: l) Hl) as [[c [s [E Hc]]] [c' [s' [E' Hc']]]];
    [discriminate|].
  revert E E'. generalize (join [space] (t :: l)). intros j E E'.
  assert (Hl1 : lstrip j = j) by (rewrite E; simpl; rewrite Hc; reflexivity).
  unfold strip, rstrip. rewrite Hl1, E', rev_app_distr. simpl. rewrite Hc'.
  change (c' :: rev s') with (rev [c'] ++ rev s').
  rewrite <- rev_app_distr, rev_involutive. reflexivity.
Qed.

Lemma split_join (l : list str) :
  Forall wordy l -> split (join [space] l) = l.
Proof.
  unfold split, runs. induction l as [|t l IH]; intros Hl; [reflexivity|].
  inversion Hl as [|? ? Ht Hl']; subst.
  destruct (wordy_facts t Ht) as [Hne [_ [Hns _]]].
  assert (Hp : Forall (fun c => negb (is_space c) = true) t).
  { eapply Forall_impl; [|exact Hns]. intros c Hc. rewrite Hc. reflexivity. }
  destruct l as [|t2 l].
  - simpl. rewrite runs_from_all by assumption. simpl.
    destruct t; [congruence | reflexivity].
  - rewrite join_cons, runs_from_sep by reflexivity.
    rewrite runs_from_all, IH by assumption. simpl.
    destruct t; [congruence | reflexivity].
Qed.

(** X6.  When every lemma of a kept token is a word of three or more
    lowercase letters, the result is these lemmas, in the order of the
    text, joined by single spaces; splitting the result at spaces gives
    the lemmas back. *)
Theorem preprocess_text_joins_lemmas (self : TicketClustering) (text : str) :
  let lemmas := map (lemmatizer self) (kept_tokens self text) in
  Forall wordy lemmas ->
  preprocess_text self text = join [space] lemmas /\
  split (preprocess_text self text) = lemmas.
Proof.
  intros lemmas Hl.
  assert (E : preprocess_text self text = join [space] lemmas).
  { unfold preprocess_text. fold lemmas.
    rewrite !replace_join by (assumption || reflexivity || discriminate).
    rewrite sub_short_join by assumption.
    unfold sub_spaces. rewrite sub_spaces_join by assumption.
    apply strip_join; assumption. }
  split; [exact E|]. rewrite E. apply split_join; assumption.
Qed.

Lemma preprocess_text_joins_lemmas_witness :
  preprocess_text sample_self (str_of "The users cannot reset 2 passwords!") =
  str_of "user reset password".
Proof.
  apply (preprocess_text_joins_lemmas sample_self
           (str_of "The users cannot reset 2 passwords!")).
  assert (E : map (lemmatizer sample_self)
                (kept_tokens sample_self
                   (str_of "The users cannot reset 2 passwords!")) =
              map str_of ["user"; "reset"; "password"]%string)
    by (vm_compute; reflexivity).
  rewrite E. repeat constructor.
Defined.

(** ** The stop-word set *)

(** X7.  For every English list, the set built by
    [_initialize_stop_words] holds the words of the English list and of
    the domain list that are not operators.  So [know] and [many],
    which the domain list names, are not stop words, and every other
    word of the domain list is one. *)
Theorem initialize_stop_words_members (english : list str) :
  let stop := _initialize_stop_words english in
  (forall w, In w stop <->
             (In w english \/ In w domain_stop_words) /\ ~ In w operators) /\
  ~ In (str_of "know") stop /\ ~ In (str_of "many") stop /\
  (forall w, In w domain_stop_words ->
             w <> str_of "know" -> w <> str_of "many" -> In w stop).
Proof.
  cbv zeta.
  assert (Hiff : forall w, In w (_initialize_stop_words english) <->
            (In w english \/ In w domain_stop_words) /\ ~ In w operators).
  { intros w. unfold _initialize_stop_words.
    rewrite filter_In, in_app_iff, negb_true_iff, mem_false. reflexivity. }
  split; [exact Hiff|]. split; [|split].
  - intros H. apply Hiff in H. destruct H as [_ H]. apply H.
    apply mem_In. reflexivity.
  - intros H. apply Hiff in H. destruct H as [_ H]. apply H.
    apply mem_In. reflexivity.
  - intros w Hw Hknow Hmany. apply Hiff. split; [right; exact Hw|].
    assert (Hall : forallb (fun d => negb (mem d operators)
                                     || str_eqb d (str_of "know")
                                     || str_eqb d (str_of "many"))
                     domain_stop_words = true) by reflexivity.
    rewrite forallb_forall in Hall. specialize (Hall w Hw).
    rewrite !orb_true_iff, negb_true_iff, mem_false, !str_eqb_eq in Hall.
    tauto.
Qed.

Lemma initialize_stop_words_members_witness :
  In (str_of "please") (_initialize_stop_words nltk_english) /\
  ~ In (str_of "know") (_initialize_stop_words nltk_english).
Proof.
  destruct (initialize_stop_words_members nltk_english) as [_ [H2 [_ H4]]].
  split; [|exact H2].
  apply H4; [apply mem_In; reflexivity | discriminate | discriminate].
Defined.

(** ** The selector *)

Lemma py_range_cons (lo hi : Z) :
  (lo < hi)%Z -> py_range lo hi = lo :: py_range (lo + 1) hi.
Proof.
  intros H. unfold py_range.
  replace (Z.to_nat (hi - lo)) with (S (Z.to_nat (hi - (lo + 1)))) by lia.
  simpl. f_equal; [lia|].
  rewrite <- seq_shift, map_map. apply map_ext. intros i. lia.
Qed.

Lemma py_range_split (lo k hi : Z) :
  (lo <= k < hi)%Z ->
  py_range lo hi = py_range lo k ++ k :: py_range (k + 1) hi.
Proof.
  intros H. remember (Z.to_nat (k - lo)) as n eqn:En.
  revert lo H En. induction n as [|n IH]; intros lo H En.
  - assert (lo = k) by lia. subst lo.
    rewrite (py_range_empty k k) by lia. simpl. apply py_range_cons. lia.
  - rewrite (py_range_cons lo hi), (py_range_cons lo k) by lia.
    simpl. f_equal. apply IH; lia.
Qed.

Lemma scores_of_first_exception (sk : Sklearn) (X : matrix)
    (K1 K2 : list Z) (k : Z) (e : exn) :
  (forall k', In k' K1 -> exists s, score_of sk X k' = inr s) ->
  score_of sk X k = inl e ->
  scores_of sk X (K1 ++ k :: K2) = inl e /\
  evaluated sk X (K1 ++ k :: K2) = K1 ++ [k].
Proof.
  intros H1 Hk. induction K1 as [|k0 K1 IH]; simpl.
  - rewrite Hk. split; reflexivity.
  - destruct (H1 k0 (or_introl eq_refl)) as [s ->].
    destruct IH as [-> ->]; [intros k' Hk'; apply H1; right; exact Hk'|].
    split; reflexivity.
Qed.

(** X8.  When the fit or the scoring of a candidate [k] raises and the
    smaller candidates were fitted and scored, [find_optimal_clusters]
    raises that exception; the candidates from 2 to [k] have been
    fitted and no larger one. *)
Theorem find_optimal_clusters_first_exception (sk : Sklearn) (X : matrix)
    (max_clusters : Z) (w : world) (k : Z) (e : exn) :
  let m := Z.min max_clusters (Z.of_nat (length X) / 8) in
  (2 <= k <= m)%Z ->
  (forall k', (2 <= k' < k)%Z -> exists s, score_of sk X k' = inr s) ->
  score_of sk X k = inl e ->
  find_optimal_clusters sk X max_clusters w =
  (add_fits w (map (candidate_fit sk X) (py_range 2 (k + 1))), inl e).
Proof.
  intros m Hk Hbefore He. unfold find_optimal_clusters, effective_max. fold m.
  rewrite select_among_run.
  rewrite (py_range_split 2 k (m + 1)) by lia.
  destruct (scores_of_first_exception sk X (py_range 2 k)
              (py_range (k + 1) (m + 1)) k e) as [-> ->]; try assumption.
  - intros k' Hk'. apply Hbefore. apply py_range_In in Hk'. exact Hk'.
  - rewrite (py_range_split 2 k (k + 1)) by lia.
    rewrite (py_range_empty (k + 1) (k + 1)) by lia. reflexivity.
Qed.

Lemma find_optimal_clusters_first_exception_witness :
  find_optimal_clusters picky_sklearn (sample_matrix 40) 10 (world_with tickets16) =
  (add_fits (world_with tickets16)
     (map (candidate_fit picky_sklearn (sample_matrix 40)) [2; 3; 4]%Z),
   inl (ValueError "Number of labels is 1")).
Proof.
  apply (find_optimal_clusters_first_exception picky_sklearn (sample_matrix 40)
           10 (world_with tickets16) 4).
  - vm_compute. split; discriminate.
  - intros k' Hk'. assert (Hc : k' = 2%Z \/ k' = 3%Z) by lia.
    destruct Hc as [-> | ->];
      [exists (Qmake 1 10) | exists (Qmake 2 10)]; vm_compute; reflexivity.
  - vm_compute. reflexivity.
Defined.

(** X9.  A selection that returns has fitted each candidate from 2 to
    [m = min(max_clusters, R // 8)] once, in ascending order, and has
    done nothing else to the world: it has made [m - 1] fits. *)
Theorem find_optimal_clusters_fits_all (sk : Sklearn) (X : matrix)
    (max_clusters : Z) (w w1 : world) (k : Z) :
  let m := Z.min max_clusters (Z.of_nat (length X) / 8) in
  find_optimal_clusters sk X max_clusters w = (w1, inr k) ->
  w1 = add_fits w (map (candidate_fit sk X) (py_range 2 (m + 1))) /\
  length (fits w1) = length (fits w) + Z.to_nat (m - 1).
Proof.
  intros m. unfold find_optimal_clusters, effective_max. fold m.
  rewrite select_among_run.
  set (K := py_range 2 (m + 1)).
  destruct (scores_of sk X K) as [e|l] eqn:El; [discriminate|].
  rewrite (evaluated_all sk X K l El).
  destruct (argmax l) as [e|i]; [discriminate|].
  unfold getitem_range. destruct (nth_error K i) as [k'|]; [|discriminate].
  intros H. injection H as <- _. split; [reflexivity|].
  simpl. rewrite length_app, length_map. unfold K. rewrite py_range_length.
  f_equal. lia.
Qed.

Lemma find_optimal_clusters_fits_all_witness :
  length (fits (fst (find_optimal_clusters toy_sklearn (sample_matrix 40) 10
                       (world_with tickets16)))) = 4.
Proof.
  destruct (find_optimal_clusters_fits_all toy_sklearn (sample_matrix 40) 10
              (world_with tickets16)
              (fst (find_optimal_clusters toy_sklearn (sample_matrix 40) 10
                      (world_with tickets16))) 5) as [_ H].
  - vm_compute. reflexivity.
  - rewrite H. vm_compute. reflexivity.
Defined.

(** ** The driver *)

Lemma positions_missing (name : str) (names all : list str) :
  In name names -> index_of name all = None ->
  exists key, positions names all = inl (KeyError key).
Proof.
  induction names as [|n names IH]; intros Hin Hmiss; [destruct Hin|].
  simpl. destruct (index_of n all) as [i|] eqn:En.
  - destruct Hin as [->|Hin]; [congruence|].
    destruct (IH Hin Hmiss) as [key ->]. exists key; reflexivity.
  - exists n; reflexivity.
Qed.

(** X10.  Input errors of [cluster_tickets]: when there is no file at
    [input_file] the run raises [FileNotFoundError] for that path, and
    when the file lacks the column [Inquiry_id] or the column
    [Question] it raises a [KeyError]; in both cases the world is left
    as it was. *)
Theorem cluster_tickets_input_errors (sk : Sklearn) (self : TicketClustering)
    (w : world) :
  (lookup_file (input_file self) (files w) = None ->
   cluster_tickets sk self w = (w, inl (FileNotFoundError (input_file self)))) /\
  (forall df,
     lookup_file (input_file self) (files w) = Some df ->
     index_of Inquiry_id (columns df) = None \/
     index_of Question (columns df) = None ->
     exists key, cluster_tickets sk self w = (w, inl (KeyError key))).
Proof.
  split.
  - intros Hfile. unfold cluster_tickets. rewrite bind_step.
    unfold read_csv at 1. rewrite Hfile. reflexivity.
  - intros df Hfile Hmiss. unfold cluster_tickets. rewrite bind_step.
    unfold read_csv at 1. rewrite Hfile. rewrite bind_lift.
    assert (Hpos : exists key,
              positions [Inquiry_id; Question] (columns df) = inl (KeyError key)).
    { destruct Hmiss as [H|H];
        [apply (positions_missing Inquiry_id) | apply (positions_missing Question)];
        simpl; auto. }
    destruct Hpos as [key Hpos]. unfold getitem_list. rewrite Hpos.
    exists key; reflexivity.
Qed.

Lemma cluster_tickets_input_errors_witness :
  cluster_tickets toy_sklearn sample_self_again (world_with tickets16) =
    (world_with tickets16, inl (FileNotFoundError (str_of "/srv/in.csv"))) /\
  exists key,
    cluster_tickets toy_sklearn sample_self (world_with prices) =
    (world_with prices, inl (KeyError key)).
Proof.
  split.
  - apply (cluster_tickets_input_errors toy_sklearn sample_self_again
             (world_with tickets16)).
    reflexivity.
  - apply (proj2 (cluster_tickets_input_errors toy_sklearn sample_self
                    (world_with prices)) prices).
    + vm_compute. reflexivity.
    + right. vm_compute. reflexivity.
Defined.

Lemma cluster_tickets_files (sk : Sklearn) (self : TicketClustering)
    (w w' : world) :
  cluster_tickets sk self w = (w', inr tt) ->
  exists out, files w' = (output_file self, out) :: files w.
Proof.
  unfold cluster_tickets. intros H.
  rewrite bind_step in H. unfold read_csv at 1 in H.
  destruct (lookup_file (input_file self) (files w)) as [df|]; [|discriminate].
  do 6 (rewrite bind_lift in H;
        match type of H with
        | match ?x with _ => _ end = _ => destruct x; [discriminate|]
        end).
  rewrite bind_step in H. unfold find_optimal_clusters in H.
  rewrite select_among_run in H. unfold add_fits in H.
  match type of H with
  | context [match ?x with inl _ => _ | inr _ => _ end] =>
      destruct x as [e|k]; [discriminate|]
  end.
  rewrite bind_step in H. unfold fit at 1 in H.
  match type of H with
  | context [kmeans_fit sk ?c ?X] =>
      destruct (kmeans_fit sk c X) as [e|model]; [discriminate|]
  end.
  rewrite bind_lift in H.
  destruct (setitem _ Label _) as [e|clean_data] in H; [discriminate|].
  rewrite bind_step in H. unfold _analyze_clusters, ret in H.
  rewrite bind_lift in H.
  destruct (setitem _ Label _) as [e|df4] in H; [discriminate|].
  rewrite bind_lift in H.
  destruct (sort_values df4 Label) as [e|sorted] in H; [discriminate|].
  unfold to_csv in H. injection H as <-. simpl. eexists; reflexivity.
Qed.

(** X11.  One write: a run of [cluster_tickets] that returns has
    written one file, at [output_file]; every other path reads as
    before the run, the input file among them when its path is not
    [output_file]. *)
Theorem cluster_tickets_writes_once (sk : Sklearn) (self : TicketClustering)
    (w w' : world) :
  cluster_tickets sk self w = (w', inr tt) ->
  (exists out, files w' = (output_file self, out) :: files w) /\
  (forall path, str_eqb path (output_file self) = false ->
                lookup_file path (files w') = lookup_file path (files w)).
Proof.
  intros Hrun.
  destruct (cluster_tickets_files sk self w w' Hrun) as [out Hout].
  split; [exists out; exact Hout|].
  intros path Hne. rewrite Hout. simpl. rewrite Hne. reflexivity.
Qed.

Lemma cluster_tickets_writes_once_witness :
  lookup_file (input_file sample_self)
    (files (fst (cluster_tickets toy_sklearn sample_self (world_with tickets16)))) =
  Some tickets16.
Proof.
  destruct (cluster_tickets_writes_once toy_sklearn sample_self
              (world_with tickets16)
              (fst (cluster_tickets toy_sklearn sample_self (world_with tickets16))))
    as [_ H].
  - vm_compute. reflexivity.
  - rewrite H; [|vm_compute; reflexivity].
    simpl. change (str_eqb (input_file sample_self) (input_file sample_self)) with true.
    reflexivity.
Defined.

(** X12.  A run of [cluster_tickets] makes at most ten fits: at most
    nine in the selection (the candidates 2 to 10) and the final one. *)
Theorem cluster_tickets_at_most_ten_fits (sk : Sklearn) (self : TicketClustering)
    (w : world) :
  length (fits (fst (cluster_tickets sk self w))) <= length (fits w) + 10.
Proof.
  destruct (cluster_tickets sk self w) as [w' r] eqn:Hrun. simpl.
  assert (Hrange : forall X, length (py_range 2 (effective_max X 10 + 1)) <= 9).
  { intros X. rewrite py_range_length. unfold effective_max. lia. }
  destruct (cluster_tickets_trace sk self w w' r Hrun)
    as [[X [K1 [K2 [HK [Hfits _]]]]]|[X [k [model [_ [_ Hfits]]]]]];
    rewrite Hfits, !length_app, ?length_map.
  - specialize (Hrange X). rewrite HK, length_app in Hrange. lia.
  - specialize (Hrange X). simpl. lia.
Qed.

Lemma length_filter_map {A B C : Type} (f : B -> bool) (g : C -> bool)
    (h : A -> B) (h' : A -> C) (l : list A) :
  (forall x, f (h x) = g (h' x)) ->
  length (filter f (map h l)) = length (filter g (map h' l)).
Proof.
  intros H. induction l as [|x l IH]; simpl; [reflexivity|].
  rewrite H. destruct (g (h' x)); simpl; congruence.
Qed.

Lemma filter_all {A : Type} (f : A -> bool) (l : list A) :
  (forall x, In x l -> f x = true) -> filter f l = l.
Proof.
  induction l as [|x l IH]; intros H; simpl; [reflexivity|].
  rewrite (H x) by (left; reflexivity). f_equal. apply IH.
  intros y Hy; apply H; right; exact Hy.
Qed.

(** X13.  Let the vectoriser return one row per document.  When fewer
    than sixteen records of the input file have a normalised text that
    is not empty, [cluster_tickets] raises, and the world is as before:
    no fit was made and no file written. *)
Theorem cluster_tickets_needs_sixteen (sk : Sklearn) (self : TicketClustering)
    (w : world) (df : DataFrame) :
  lookup_file (input_file self) (files w) = Some df ->
  (forall v docs X, fit_transform sk v docs = inr X -> length X = length docs) ->
  length (filter (fun t => negb (str_eqb t [])) (cleaned self df)) < 16 ->
  exists e, cluster_tickets sk self w = (w, inl e).
Proof.
  intros Hfile Hrows Hfew. unfold cluster_tickets.
  rewrite bind_step. unfold read_csv at 1. rewrite Hfile.
  rewrite bind_lift.
  destruct (getitem_list df [Inquiry_id; Question]) as [e|df2] eqn:E0;
    [eexists; reflexivity|].
  rewrite bind_lift.
  destruct (getitem df2 Question) as [e|question] eqn:E1;
    [eexists; reflexivity|].
  rewrite bind_lift.
  destruct (setitem df2 Description_clean _) as [e|df3] eqn:E2;
    [eexists; reflexivity|].
  rewrite bind_lift.
  destruct (getitem df3 Description_clean) as [e|description_clean] eqn:E3;
    [eexists; reflexivity|].
  destruct (prepare_frame self _ _ _ _ _ E0 E1 E2 E3)
    as [i [q [Hi [Hq [Hquestion [Hclean [Hcols Hrows3]]]]]]].
  rewrite bind_lift.
  destruct (getitem (getitem_mask df3 _) Description_clean)
    as [e|documents] eqn:E4; [eexists; reflexivity|].
  rewrite bind_lift.
  destruct (fit_transform sk _ (map py_str documents)) as [e|X] eqn:E5;
    [eexists; reflexivity|].
  assert (Hlen : length X < 16).
  { rewrite (Hrows _ _ _ E5), length_map.
    assert (Hdc : description_clean = map (fun r => nth 2 r NaN) (rows df3)).
    { unfold getitem in E3. rewrite Hcols in E3. simpl in E3. congruence. }
    unfold getitem, getitem_mask in E4. rewrite Hcols in E4. simpl in E4.
    injection E4 as <-. rewrite length_map, Hdc, map_map.
    rewrite (mask_filter (fun r => negb (cell_eqb (nth 2 r NaN) (Str [])))).
    rewrite Hrows3. unfold prepared_rows.
    unfold cleaned, questions in Hfew. rewrite Hquestion in Hfew.
    unfold getitem in Hquestion. rewrite Hq in Hquestion.
    injection Hquestion as <-. rewrite map_map in Hfew.
    erewrite length_filter_map; [exact Hfew|]. reflexivity. }
  rewrite bind_step. unfold find_optimal_clusters.
  rewrite select_among_run.
  assert (Hdiv : (Z.of_nat (length X) / 8 < 2)%Z)
    by (apply Z.div_lt_upper_bound; lia).
  rewrite py_range_empty by (unfold effective_max; lia).
  simpl. rewrite add_fits_nil. eexists; reflexivity.
Qed.

Lemma cluster_tickets_needs_sixteen_witness :
  exists e,
    cluster_tickets toy_sklearn sample_self (world_with three_tickets) =
    (world_with three_tickets, inl e).
Proof.
  apply (cluster_tickets_needs_sixteen toy_sklearn sample_self
           (world_with three_tickets) three_tickets).
  - vm_compute. reflexivity.
  - intros v docs X. simpl. destruct docs; [discriminate|].
    intros H; injection H as <-. simpl. rewrite length_map. reflexivity.
  - vm_compute. lia.
Defined.

(** X14.  In a run of [cluster_tickets] that returns, the matrix was
    built from the normalised texts of all records, in the order of
    the file; the final model has one label per record; and the file
    written holds each record with the label at its position in the
    model's labels. *)
Theorem cluster_tickets_labels_by_position (sk : Sklearn)
    (self : TicketClustering) (w w' : world) :
  cluster_tickets sk self w = (w', inr tt) ->
  exists df i q X k model out,
    lookup_file (input_file self) (files w) = Some df /\
    index_of Inquiry_id (columns df) = Some i /\
    index_of Question (columns df) = Some q /\
    fit_transform sk {| tfidf_stop_words := str_of "english"; min_df := 2 |}
      (cleaned self df) = inr X /\
    kmeans_fit sk (candidate k) X = inr model /\
    length (labels_ model) = length (rows df) /\
    lookup_file (output_file self) (files w') = Some out /\
    Permutation (rows out) (labelled_rows self i q df (labels_ model)).
Proof.
  unfold cluster_tickets. intros H.
  do 13 invert_run H.
  apply read_csv_inr in Hstep. destruct Hstep as [-> Hfile].
  destruct (prepare_frame self _ _ _ _ _ Hstep0 Hstep1 Hstep2 Hstep3)
    as [i [q [Hi [Hq [Hquestion [Hclean [Hcols Hrows]]]]]]].
  pose proof (setitem_length _ _ _ _ Hstep8) as Hlen8.
  pose proof (setitem_length _ _ _ _ Hstep10) as Hlen10.
  assert (Hv3 : v3 = map (fun r => nth 2 r NaN) (rows v2)).
  { unfold getitem in Hstep3. rewrite Hcols in Hstep3. simpl in Hstep3.
    congruence. }
  unfold getitem_mask in Hlen8. simpl in Hlen8.
  rewrite Hv3, map_map in Hlen8.
  rewrite (mask_filter (fun r => negb (cell_eqb (nth 2 r NaN) (Str []))))
    in Hlen8.
  rewrite Hlen10 in Hlen8. symmetry in Hlen8.
  pose proof (filter_all _ _ (filter_full _ _ Hlen8)) as Hfull.
  assert (Hdocs : map py_str v4 = cleaned self v).
  { unfold getitem, getitem_mask in Hstep4. rewrite Hcols in Hstep4.
    simpl in Hstep4. injection Hstep4 as <-.
    rewrite Hv3.
    rewrite (map_map (fun r : list cell => nth 2 r NaN)
               (fun c => negb (cell_eqb c (Str [])))).
    rewrite (mask_filter (fun r => negb (cell_eqb (nth 2 r NaN) (Str [])))).
    rewrite Hfull, Hrows. unfold prepared_rows, cleaned, questions.
    rewrite Hquestion. unfold getitem in Hquestion. rewrite Hq in Hquestion.
    injection Hquestion as <-. rewrite !map_map. reflexivity. }
  rewrite Hdocs in Hstep5.
  assert (Hrows10 : rows v10 = labelled_rows self i q v (labels_ v7)).
  { unfold setitem in Hstep10. rewrite Hcols in Hstep10. simpl in Hstep10.
    destruct (_ =? _); [|discriminate]. injection Hstep10 as <-. simpl.
    unfold labelled_rows. rewrite Hrows.
    generalize (prepared_rows self i q v) as l. generalize (labels_ v7) as zs.
    induction zs as [|z zs IH]; intros [|r l]; simpl; try reflexivity.
    rewrite IH; reflexivity. }
  assert (Hrows11 : Permutation (rows v11) (rows v10)).
  { unfold setitem in Hstep10. rewrite Hcols in Hstep10. simpl in Hstep10.
    destruct (_ =? _); [|discriminate].
    assert (Hc10 : columns v10 = [Inquiry_id; Question; Description_clean; Label])
      by (injection Hstep10 as <-; reflexivity).
    unfold sort_values in Hstep11. rewrite Hc10 in Hstep11. simpl in Hstep11.
    destruct (_ || _); [|discriminate]. injection Hstep11 as <-. simpl.
    apply sort_by_perm. }
  unfold to_csv in H. injection H as <-. simpl.
  exists v, i, q, v5, v6, v7, v11.
  repeat split; try assumption.
  - rewrite length_map, Hrows in Hlen10. unfold prepared_rows in Hlen10.
    rewrite length_map in Hlen10. exact Hlen10.
  - assert (E : str_eqb (output_file self) (output_file self) = true)
      by (apply str_eqb_eq; reflexivity).
    rewrite E. reflexivity.
  - rewrite <- Hrows10. exact Hrows11.
Qed.

Lemma cluster_tickets_labels_by_position_witness :
  exists X model out,
    fit_transform toy_sklearn
      {| tfidf_stop_words := str_of "english"; min_df := 2 |}
      (cleaned sample_self tickets16) = inr X /\
    lookup_file (output_file sample_self)
      (files (fst (cluster_tickets toy_sklearn sample_self (world_with tickets16)))) =
      Some out /\
    Permutation (rows out) (labelled_rows sample_self 0 1 tickets16 (labels_ model)).
Proof.
  destruct (cluster_tickets_labels_by_position toy_sklearn sample_self
              (world_with tickets16)
              (fst (cluster_tickets toy_sklearn sample_self (world_with tickets16))))
    as [df [i [q [X [k [model [out [H1 [H2 [H3 [H4 [_ [_ [H7 H8]]]]]]]]]]]]]].
  - vm_compute. reflexivity.
  - assert (Hdf : df = tickets16).
    { simpl in H1.
      change (str_eqb (input_file sample_self) (input_file sample_self))
        with true in H1.
      congruence. }
    subst df.
    assert (Hi : i = 0) by (vm_compute in H2; congruence).
    assert (Hq : q = 1) by (vm_compute in H3; congruence).
    subst i q. exists X, model, out. split; [exact H4 | split; [exact H7 | exact H8]].
Defined.

(** ** The report *)

Lemma list_sum_zero {A : Type} (f : A -> nat) (l : list A) :
  (forall x, In x l -> f x = 0) -> list_sum (map f l) = 0.
Proof.
  induction l as [|x l IH]; intros H; simpl; [reflexivity|].
  rewrite (H x) by (left; reflexivity). apply IH.
  intros y Hy; apply H; right; exact Hy.
Qed.

Lemma list_sum_map_add {A : Type} (f g : A -> nat) (l : list A) :
  list_sum (map (fun x => f x + g x) l) = list_sum (map f l) + list_sum (map g l).
Proof. induction l as [|x l IH]; simpl; [reflexivity | rewrite IH; lia]. Qed.

(** A label is counted by one cluster of [range(k)] when it lies in
    [0, k), and by none otherwise. *)
Lemma label_counted_once (k z : Z) :
  list_sum (map (fun i => if Z.eqb i z then 1 else 0) (py_range 0 k)) =
  if ((0 <=? z) && (z <? k))%Z then 1 else 0.
Proof.
  destruct ((0 <=? z) && (z <? k))%Z eqn:E.
  - apply andb_true_iff in E. destruct E as [E1 E2].
    apply Z.leb_le in E1. apply Z.ltb_lt in E2.
    rewrite (py_range_split 0 z k) by lia.
    rewrite map_app, list_sum_app. simpl. rewrite Z.eqb_refl.
    rewrite !list_sum_zero; [reflexivity| |].
    + intros i Hi. apply py_range_In in Hi.
      destruct (Z.eqb_spec i z); [lia | reflexivity].
    + intros i Hi. apply py_range_In in Hi.
      destruct (Z.eqb_spec i z); [lia | reflexivity].
  - apply list_sum_zero. intros i Hi. apply py_range_In in Hi.
    destruct (Z.eqb_spec i z); [|reflexivity].
    subst i. exfalso.
    assert (Ht : ((0 <=? z) && (z <? k))%Z = true).
    { apply andb_true_iff. split; [apply Z.leb_le | apply Z.ltb_lt]; lia. }
    congruence.
Qed.

(** X15.  The sizes that the report gives for the clusters 0 to
    [k - 1] add up to the number of labels in that range: to the number
    of records when every label lies in [0, k), and to less when one
    does not. *)
Theorem cluster_sizes_sum (labels : list Z) (k : Z) :
  list_sum (map (cluster_size labels) (py_range 0 k)) =
    length (filter (fun z => ((0 <=? z) && (z <? k))%Z) labels) /\
  (Forall (fun z => (0 <= z < k)%Z) labels ->
   list_sum (map (cluster_size labels) (py_range 0 k)) = length labels).
Proof.
  assert (Hsum : list_sum (map (cluster_size labels) (py_range 0 k)) =
                 length (filter (fun z => ((0 <=? z) && (z <? k))%Z) labels)).
  { induction labels as [|z labels IH].
    - simpl. apply list_sum_zero. reflexivity.
    - rewrite (map_ext (cluster_size (z :: labels))
                 (fun i => (if Z.eqb i z then 1 else 0) + cluster_size labels i)).
      + rewrite list_sum_map_add, IH, label_counted_once. simpl.
        destruct ((0 <=? z) && (z <? k))%Z; reflexivity.
      + intros i. unfold cluster_size. simpl.
        destruct (Z.eqb i z); reflexivity. }
  split; [exact Hsum|].
  intros Hall. rewrite Hsum. f_equal. apply filter_all.
  rewrite Forall_forall in Hall. intros z Hz. specialize (Hall z Hz).
  apply andb_true_iff. split; [apply Z.leb_le | apply Z.ltb_lt]; lia.
Qed.

Lemma cluster_sizes_sum_witness :
  list_sum (map (cluster_size [0; 2; 2; 0; 2]%Z) (py_range 0 3)) = 5.
Proof.
  apply (cluster_sizes_sum [0; 2; 2; 0; 2]%Z 3).
  repeat constructor; lia.
Defined.

Lemma mask_select {A B : Type} (h : A -> B) (i : Z) (l : list A) :
  forall labels : list Z,
    map h (map fst (filter snd
                      (combine l (map (fun c => cell_eqb c (Int i))
                                    (map Int labels))))) =
    map fst (filter (fun p => Z.eqb (snd p) i) (combine (map h l) labels)).
Proof.
  induction l as [|x l IH]; intros [|z labels]; simpl; try reflexivity.
  destruct (Z.eqb z i); simpl; rewrite IH; reflexivity.
Qed.

Lemma selected_length {B : Type} (i : Z) (qs : list B) :
  forall labels : list Z,
    length qs = length labels ->
    length (filter (fun p : B * Z => Z.eqb (snd p) i) (combine qs labels)) =
    cluster_size labels i.
Proof.
  unfold cluster_size.
  induction qs as [|x qs IH]; intros [|z labels] H; simpl in *;
    try reflexivity; try discriminate.
  rewrite (Z.eqb_sym i z). destruct (Z.eqb z i); simpl; rewrite IH by lia;
    reflexivity.
Qed.

(** X16.  For a frame whose [Label] column holds the labels, the sample
    of a cluster is the questions of the first three records with that
    label, in the order of the frame: as many as the cluster has
    records when it has fewer than three, and none, without an
    exception, for a cluster without records. *)
Theorem sample_questions_first_three (data : DataFrame) (labels : list Z)
    (questions : list cell) (i : Z) :
  getitem data Label = inr (map Int labels) ->
  getitem data Question = inr questions ->
  exists sample,
    sample_questions data i = inr sample /\
    sample = firstn 3 (map fst (filter (fun p => Z.eqb (snd p) i)
                                  (combine questions labels))) /\
    length sample = Nat.min 3 (cluster_size labels i).
Proof.
  intros Hlabel Hquestion. unfold sample_questions. rewrite Hlabel.
  unfold getitem in Hlabel, Hquestion |- *.
  unfold getitem_mask at 1. cbn [columns rows].
  destruct (index_of Label (columns data)) as [j|]; [|discriminate].
  destruct (index_of Question (columns data)) as [q|]; [|discriminate].
  injection Hlabel as Hlabel. injection Hquestion as <-.
  assert (Hlen : length (map (fun r => nth q r NaN) (rows data)) = length labels).
  { rewrite length_map. apply (f_equal (@length cell)) in Hlabel.
    rewrite !length_map in Hlabel. exact Hlabel. }
  eexists. split; [reflexivity|]. unfold getitem_mask. cbn [rows]. split.
  - rewrite mask_select. reflexivity.
  - rewrite mask_select, length_firstn, length_map.
    rewrite selected_length by exact Hlen. reflexivity.
Qed.

Lemma sample_questions_first_three_witness :
  exists sample,
    sample_questions labelled16 1 = inr sample /\ length sample = 3.
Proof.
  destruct (sample_questions_first_three labelled16
              (map (fun n => Z.of_nat n mod 2)%Z (seq 0 16))
              (questions labelled16) 1) as [sample [H1 [_ H3]]].
  - vm_compute. reflexivity.
  - vm_compute. reflexivity.
  - exists sample. split; [exact H1 | exact H3].
Defined.

(** ** The greeting step and the tokens *)

Lemma starts_with_prefix (g s : str) :
  starts_with g s = true -> exists b, s = g ++ b.
Proof.
  revert s. induction g as [|x g IH]; intros s H; simpl in H.
  - exists s; reflexivity.
  - destruct s as [|y s]; [discriminate|].
    apply andb_true_iff in H. destruct H as [Hxy Hrest].
    apply Ascii.eqb_eq in Hxy. subst y.
    destruct (IH s Hrest) as [b ->]. exists b; reflexivity.
Qed.

Lemma starts_with_app (g s : str) : starts_with g (g ++ s) = true.
Proof.
  induction g as [|x g IH]; simpl; [reflexivity|].
  rewrite Ascii.eqb_refl. exact IH.
Qed.

Lemma sub_greeting_from_skip (n : nat) (a s : str) :
  length a = n -> sub_greeting_from n (a ++ s) = sub_greeting_from 0 s.
Proof.
  revert a. induction n as [|n IH]; intros a H.
  - destruct a; [reflexivity | discriminate].
  - destruct a as [|c a]; [discriminate|]. simpl. apply IH.
    simpl in H. lia.
Qed.

(** X18.  Line 93 deletes a greeting at the start of a text and goes
    on with the rest, and it leaves a text unchanged in which none of
    [kindly], [hi] and [hello] occurs. *)
Theorem sub_greeting_greetings (s : str) :
  (forall g, In g [kindly; hi; hello] ->
             sub_greeting (g ++ s) = sub_greeting s) /\
  ((forall g, In g [kindly; hi; hello] -> ~ occurs g s) ->
   sub_greeting s = s).
Proof.
  split.
  - intros g Hg. unfold sub_greeting. simpl in Hg.
    destruct Hg as [<-|[<-|[<-|[]]]].
    + change (kindly ++ s) with ("k"%char :: str_of "indly" ++ s).
      cbn [sub_greeting_from].
      change ("k"%char :: str_of "indly" ++ s) with (kindly ++ s).
      rewrite starts_with_app. apply sub_greeting_from_skip. reflexivity.
    + change (hi ++ s) with ("h"%char :: str_of "i" ++ s).
      cbn [sub_greeting_from].
      change ("h"%char :: str_of "i" ++ s) with (hi ++ s).
      change (starts_with kindly (hi ++ s)) with false.
      rewrite starts_with_app. apply sub_greeting_from_skip. reflexivity.
    + change (hello ++ s) with ("h"%char :: str_of "ello" ++ s).
      cbn [sub_greeting_from].
      change ("h"%char :: str_of "ello" ++ s) with (hello ++ s).
      change (starts_with kindly (hello ++ s)) with false.
      change (starts_with hi (hello ++ s)) with false.
      rewrite starts_with_app. apply sub_greeting_from_skip. reflexivity.
  - unfold sub_greeting. induction s as [|c s IH]; intros Hno; [reflexivity|].
    assert (Hhere : forall g, In g [kindly; hi; hello] ->
              starts_with g (c :: s) = false).
    { intros g Hg. destruct (starts_with g (c :: s)) eqn:E; [|reflexivity].
      exfalso. apply (Hno g Hg). apply starts_with_prefix in E.
      destruct E as [b E]. exists [], b. exact E. }
    cbn [sub_greeting_from].
    rewrite (Hhere kindly), (Hhere hi), (Hhere hello) by (simpl; auto).
    f_equal. apply IH. intros g Hg [a [b E]].
    apply (Hno g Hg). exists (c :: a), b. rewrite E. reflexivity.
Qed.

Lemma sub_greeting_greetings_witness :
  sub_greeting (str_of "hello team") = sub_greeting (str_of " team").
Proof.
  apply (proj1 (sub_greeting_greetings (str_of " team")) hello).
  right; right; left; reflexivity.
Defined.

Lemma runs_from_nonempty (p : ascii -> bool) (s : str) : forall (cur t : str),
  In t (runs_from p cur s) -> t <> [].
Proof.
  induction s as [|c s IH]; intros cur t Ht; simpl in Ht.
  - apply In_emit in Ht. destruct Ht as [[Hne ->]|[]]. exact Hne.
  - destruct (p c); [eapply IH; exact Ht|].
    apply In_emit in Ht. destruct Ht as [[Hne ->]|Ht]; [exact Hne|].
    eapply IH; exact Ht.
Qed.

(** X19.  The lemmatiser is called on tokens only that are not empty,
    are made of lowercase letters and [+], and are not stop words. *)
Theorem kept_tokens_contract (self : TicketClustering) (text t : str) :
  In t (kept_tokens self text) ->
  t <> [] /\ Forall (fun c => plain c = true) t /\ ~ In t (stop_words self).
Proof.
  intros H. apply kept_tokens_tokenize in H. destruct H as [Htok Hstop].
  split; [|split; [apply (tokenize_plain text); exact Htok | exact Hstop]].
  unfold tokenize, split, runs in Htok.
  eapply runs_from_nonempty; exact Htok.
Qed.

Lemma kept_tokens_contract_witness :
  Forall (fun c => plain c = true) (str_of "c++").
Proof.
  apply (kept_tokens_contract sample_self (str_of "Is C++ supported?") (str_of "c++")).
  apply mem_In. reflexivity.
Defined.
